(** * The lexical scanner of lexer.c

    A shallow embedding of [src/lexer.c]: the character classes of
    <ctype.h>, the NUL-terminated source buffer with its pointer reads, the
    scanning functions [skip_whitespace], [skip_comments], [check_keyword]
    and [get_next_token], [read_file] and [main] with its token loop.

    Conventions.
    - A [char *] into the source buffer is an offset (a [nat]) into the
      block [buf ++ [NUL]] that [read_file] allocates ([fsize + 1] bytes,
      the last one set to 0).  Pointer arithmetic is offset arithmetic; a
      read through an offset outside the block is undefined behaviour.
    - [int] counters are checked against [INT_MAX]: exceeding it is signed
      overflow, undefined behaviour as well.
    - Undefined behaviour is an explicit outcome, [Undefined]; it is kept
      apart from [OutOfFuel], which only the fuel-bounded loops of the
      model can produce and which is proved unreachable with the fuel
      the model supplies. *)

From Stdlib Require Import List Bool Arith ZArith NArith Lia.
From Stdlib Require Import Ascii String.
Import ListNotations.

Local Open Scope nat_scope.

(** ** Outcomes of C computations *)

Inductive outcome (A : Type) : Type :=
| Done (a : A)
| Undefined
| OutOfFuel.

Arguments Done {A} a.
Arguments Undefined {A}.
Arguments OutOfFuel {A}.

Definition bind {A B : Type} (m : outcome A) (k : A -> outcome B) : outcome B :=
  match m with
  | Done a => k a
  | Undefined => Undefined
  | OutOfFuel => OutOfFuel
  end.

Declare Scope outcome_scope.
Delimit Scope outcome_scope with outcome.
Notation "x <- m ;; k" := (bind m (fun x => k))
  (at level 61, m at next level, right associativity) : outcome_scope.
Notation "' pat <- m ;; k" := (bind m (fun x => match x with pat => k end))
  (at level 61, pat pattern, m at next level, right associativity) : outcome_scope.
Local Open Scope outcome_scope.

(** ** Characters and <ctype.h> in the "C" locale

    The program never calls [setlocale], so the classification functions
    are those of the "C" locale, applied to [(unsigned char)c]. *)

Definition code (c : ascii) : N := N_of_ascii c.

Definition in_range (lo hi : N) (c : ascii) : bool :=
  (lo <=? code c)%N && (code c <=? hi)%N.

Definition NUL : ascii := zero.

Definition is_nul (c : ascii) : bool := Ascii.eqb c NUL.

Definition isspace (c : ascii) : bool :=
  in_range 9 13 c || (code c =? 32)%N.

Definition isdigit (c : ascii) : bool := in_range 48 57 c.

Definition isalpha (c : ascii) : bool :=
  in_range 65 90 c || in_range 97 122 c.

Definition isalnum (c : ascii) : bool := isalpha c || isdigit c.

(** ** Token types and tokens (lines 11-32) *)

Inductive TokenType : Type :=
| TOKEN_INT
| TOKEN_VOID
| TOKEN_RETURN
| TOKEN_IDENTIFIER
| TOKEN_CONSTANT
| TOKEN_OPEN_PAREN
| TOKEN_CLOSE_PAREN
| TOKEN_OPEN_BRACE
| TOKEN_CLOSE_BRACE
| TOKEN_SEMICOLON
| TOKEN_EOF
| TOKEN_ERROR.

Definition TokenType_eqb (a b : TokenType) : bool :=
  match a, b with
  | TOKEN_INT, TOKEN_INT | TOKEN_VOID, TOKEN_VOID
  | TOKEN_RETURN, TOKEN_RETURN | TOKEN_IDENTIFIER, TOKEN_IDENTIFIER
  | TOKEN_CONSTANT, TOKEN_CONSTANT | TOKEN_OPEN_PAREN, TOKEN_OPEN_PAREN
  | TOKEN_CLOSE_PAREN, TOKEN_CLOSE_PAREN | TOKEN_OPEN_BRACE, TOKEN_OPEN_BRACE
  | TOKEN_CLOSE_BRACE, TOKEN_CLOSE_BRACE | TOKEN_SEMICOLON, TOKEN_SEMICOLON
  | TOKEN_EOF, TOKEN_EOF | TOKEN_ERROR, TOKEN_ERROR => true
  | _, _ => false
  end.

(** [lexeme] is a [char *]: [None] is the NULL pointer of the end-of-file
    token, [Some s] a heap copy made by [strndup]. *)
Record Token : Type := mkToken {
  type : TokenType;
  lexeme : option string
}.

(** [token_to_debug_string] (lines 39-58). *)
Definition token_to_debug_string (t : TokenType) : string :=
  match t with
  | TOKEN_INT => "KEYWORD_INT"
  | TOKEN_VOID => "KEYWORD_VOID"
  | TOKEN_RETURN => "KEYWORD_RETURN"
  | TOKEN_IDENTIFIER => "IDENTIFIER"
  | TOKEN_CONSTANT => "CONSTANT"
  | TOKEN_OPEN_PAREN => "OPEN_PAREN"
  | TOKEN_CLOSE_PAREN => "CLOSE_PAREN"
  | TOKEN_OPEN_BRACE => "OPEN_BRACE"
  | TOKEN_CLOSE_BRACE => "CLOSE_BRACE"
  | TOKEN_SEMICOLON => "SEMICOLON"
  | TOKEN_EOF => "EOF"
  | TOKEN_ERROR => "ERROR"
  end.

(** ** The source buffer *)

(** The bytes of the file; the block holding them has one more byte, the
    terminator written by [string[fsize] = 0]. *)
Definition buffer : Type := list ascii.

Definition block (buf : buffer) : list ascii := buf ++ [NUL].

(** The memory from offset [p] to the end of the block; empty when [p] is
    outside the block. *)
Definition from (buf : buffer) (p : nat) : list ascii := skipn p (block buf).

(** [*p]: defined only inside the block. *)
Definition load (buf : buffer) (p : nat) : outcome ascii :=
  match from buf p with
  | c :: _ => Done c
  | [] => Undefined
  end.

(** The common loop shape [while (cond(p[0])) p++;], run on the memory at
    [p].  The result is the number of iterations; running off the block
    is a read outside it. *)
Fixpoint while_char (cond : ascii -> bool) (mem : list ascii) : outcome nat :=
  match mem with
  | [] => Undefined
  | c :: mem' =>
      if cond c then n <- while_char cond mem' ;; Done (S n) else Done 0
  end.

(** [int] is taken to be 32 bits wide. *)
Definition INT_MAX : Z := 2147483647.

(** The value of an [int] counter after [n] increments from 0. *)
Definition int_count (n : nat) : outcome nat :=
  if (Z.of_nat n <=? INT_MAX)%Z then Done n else Undefined.

(** [strnlen(s, n)] on the memory at [s]. *)
Fixpoint strnlen (mem : list ascii) (n : nat) {struct n} : outcome nat :=
  match n with
  | 0 => Done 0
  | S n' =>
      match mem with
      | [] => Undefined
      | c :: mem' =>
          if is_nul c then Done 0 else k <- strnlen mem' n' ;; Done (S k)
      end
  end.

(** [strndup(s, n)]: a copy of at most [n] characters of the string at
    [s], stopping at its terminator. *)
Definition strndup (buf : buffer) (s : nat) (n : nat) : outcome string :=
  k <- strnlen (from buf s) n ;;
  Done (string_of_list_ascii (firstn k (from buf s))).

(** ** Lexer functions *)

(** [skip_whitespace] (lines 79-84). *)
Definition skip_whitespace (buf : buffer) (input : nat) : outcome nat :=
  n <- while_char (fun c => negb (is_nul c) && isspace c) (from buf input) ;;
  Done (input + n).

(** The inner loop of a block comment (lines 105-106):
    [while (input[0] != 0 && !(input[0] == '*' && input[1] == '/')) input++;]
    [input[1]] is read only when [input[0]] is a star. *)
Fixpoint block_comment_body (mem : list ascii) : outcome nat :=
  match mem with
  | [] => Undefined
  | c :: mem' =>
      if is_nul c then Done 0
      else if Ascii.eqb c "*" then
        match mem' with
        | [] => Undefined
        | c1 :: _ =>
            if Ascii.eqb c1 "/" then Done 0
            else n <- block_comment_body mem' ;; Done (S n)
        end
      else n <- block_comment_body mem' ;; Done (S n)
  end.

(** [skip_comments] (lines 91-116); [fuel] bounds the outer loop. *)
Fixpoint skip_comments_loop (fuel : nat) (buf : buffer) (input : nat)
  : outcome nat :=
  match fuel with
  | 0 => OutOfFuel
  | S fuel' =>
      c0 <- load buf input ;;
      if is_nul c0 then Done input
      else if Ascii.eqb c0 "/" then
        c1 <- load buf (input + 1) ;;
        if Ascii.eqb c1 "/" then
          n <- while_char (fun c => negb (is_nul c) && negb (Ascii.eqb c "010"))
                          (from buf input) ;;
          skip_comments_loop fuel' buf (input + n)
        else if Ascii.eqb c1 "*" then
          let input := input + 2 in
          n <- block_comment_body (from buf input) ;;
          let input := input + n in
          c <- load buf input ;;
          if negb (is_nul c) then skip_comments_loop fuel' buf (input + 2)
          else skip_comments_loop fuel' buf input
        else Done input
      else Done input
  end.

Definition skip_comments (buf : buffer) (input : nat) : outcome nat :=
  skip_comments_loop (S (List.length buf)) buf input.

(** [check_keyword] (lines 123-129). *)
Definition check_keyword (lexeme : string) : TokenType :=
  if String.eqb lexeme "int" then TOKEN_INT
  else if String.eqb lexeme "void" then TOKEN_VOID
  else if String.eqb lexeme "return" then TOKEN_RETURN
  else TOKEN_IDENTIFIER.

(** The [switch] of lines 152-160 on the initial [TOKEN_ERROR]. *)
Definition simple_token_type (c : ascii) : TokenType :=
  if Ascii.eqb c "(" then TOKEN_OPEN_PAREN
  else if Ascii.eqb c ")" then TOKEN_CLOSE_PAREN
  else if Ascii.eqb c "{" then TOKEN_OPEN_BRACE
  else if Ascii.eqb c "}" then TOKEN_CLOSE_BRACE
  else if Ascii.eqb c ";" then TOKEN_SEMICOLON
  else TOKEN_ERROR.

Definition ident_char (c : ascii) : bool := isalnum c || Ascii.eqb c "_".

(** The condition of the last loop (lines 216-217). *)
Definition error_run_char (c : ascii) : bool :=
  negb (is_nul c) && negb (isspace c) &&
  negb (Ascii.eqb c "(") && negb (Ascii.eqb c ")") &&
  negb (Ascii.eqb c "{") && negb (Ascii.eqb c "}") &&
  negb (Ascii.eqb c ";").

(** Lines 216-226: the error run.  [len] is whatever the preceding code
    left in it; [current_pos] is the start of the token. *)
Definition error_run (buf : buffer) (current_pos : nat) (len : nat)
  : outcome (Token * nat) :=
  n <- while_char error_run_char (from buf current_pos) ;;
  len <- int_count (len + n) ;;
  let size := if 0 <? len then len else 1 in
  lex <- strndup buf current_pos size ;;
  Done (mkToken TOKEN_ERROR (Some lex), current_pos + size).

(** Lines 192-214: the constant, falling through to the error run with
    the digit count still in [len]. *)
Definition constant_or_error (buf : buffer) (input : nat)
  : outcome (Token * nat) :=
  c <- load buf input ;;
  if isdigit c then
    n <- while_char isdigit (from buf (input + 1)) ;;
    len <- int_count (1 + n) ;;
    c' <- load buf (input + len) ;;
    if negb (isalnum c') && negb (Ascii.eqb c' "_") then
      lex <- strndup buf input len ;;
      Done (mkToken TOKEN_CONSTANT (Some lex), input + len)
    else error_run buf input len
  else error_run buf input 0.

(** Lines 171-190: the identifier or keyword, falling through to line 192
    ([p = input; len = 0;]). *)
Definition identifier_or_later (buf : buffer) (input : nat)
  : outcome (Token * nat) :=
  c <- load buf input ;;
  if isalpha c || Ascii.eqb c "_" then
    n <- while_char ident_char (from buf input) ;;
    len <- int_count n ;;
    c' <- load buf (input + len) ;;
    if negb (isalnum c') && negb (Ascii.eqb c' "_") then
      lex <- strndup buf input len ;;
      Done (mkToken (check_keyword lex) (Some lex), input + len)
    else constant_or_error buf input
  else constant_or_error buf input.

(** [get_next_token] (lines 136-227).  The cursor [*current_pos] is passed
    in and the updated one returned with the token. *)
Definition get_next_token (buf : buffer) (current_pos : nat)
  : outcome (Token * nat) :=
  current_pos <- skip_whitespace buf current_pos ;;
  let input := current_pos in
  c <- load buf input ;;
  if is_nul c then Done (mkToken TOKEN_EOF None, current_pos)
  else
    let simple_type := simple_token_type c in
    if negb (TokenType_eqb simple_type TOKEN_ERROR) then
      lex <- strndup buf input 1 ;;
      Done (mkToken simple_type (Some lex), current_pos + 1)
    else identifier_or_later buf input.

(** ** The token loop of [main] (lines 288-316) *)

(** What the loop has done so far: the tokens it got, in order (each is
    printed on stdout), the lexemes named in the "LEXER ERROR" lines on
    stderr, and [error_count]. *)
Record scan_state : Type := mkScan {
  tokens : list Token;
  diagnostics : list (option string);
  error_count : Z
}.

Definition scan_init : scan_state := mkScan [] [] 0.

(** Lines 308-311. *)
Definition report_error (tok : Token) (st : scan_state) : outcome scan_state :=
  if TokenType_eqb (type tok) TOKEN_ERROR then
    if (error_count st <? INT_MAX)%Z then
      Done (mkScan (tokens st) (diagnostics st ++ [lexeme tok])
                   (error_count st + 1))
    else Undefined
  else Done st.

(** The [do ... while (current_token.type != TOKEN_EOF)] loop. *)
Fixpoint token_loop (fuel : nat) (buf : buffer) (current_pos : nat)
  (st : scan_state) : outcome scan_state :=
  match fuel with
  | 0 => OutOfFuel
  | S fuel' =>
      '(current_token, current_pos) <- get_next_token buf current_pos ;;
      let st := mkScan (tokens st ++ [current_token]) (diagnostics st)
                       (error_count st) in
      st <- report_error current_token st ;;
      if negb (TokenType_eqb (type current_token) TOKEN_EOF)
      then token_loop fuel' buf current_pos st
      else Done st
  end.

(** The whole scan of a buffer from its start: the token sequence and the
    error count. *)
Definition tokenize_all (buf : buffer) : outcome (list Token * Z) :=
  st <- token_loop (S (List.length buf)) buf 0 scan_init ;;
  Done (tokens st, error_count st).

(** ** [read_file] (lines 237-253)

    What the calls of [fopen], [ftell], [malloc] and [fread] do with the
    file named: the file cannot be opened; it can, and no block of its
    size is to be had; or its text is read into a block and terminated
    (line 251). *)
Inductive file_state : Type :=
| NoFile
| NoMemory
| Loaded (buf : buffer).

(** Lines 240 and 247 return NULL.  After line 251 the closing brace of
    the function is reached: no [return] statement hands the block to the
    caller.  [main] uses the value of the call (lines 279-280), which is
    undefined behaviour. *)
Definition read_file (file : file_state) : outcome (option buffer) :=
  match file with
  | NoFile => Done None
  | NoMemory => Done None
  | Loaded _ => Undefined
  end.

(** ** [main] (lines 261-327) *)

Definition MAX_SIZE : nat := 100.

(** [fgets(input_buffer, n + 1, stdin)] reads [n] characters at most, and
    none after a line feed: the characters read and what is left of
    stdin.  It returns NULL when it has read none. *)
Fixpoint fgets (n : nat) (stdin : list ascii) : list ascii * list ascii :=
  match n, stdin with
  | S n', c :: rest =>
      if Ascii.eqb c "010" then ([c], rest)
      else let (line, rest') := fgets n' rest in (c :: line, rest')
  | _, _ => ([], stdin)
  end.

(** [strtok(input_buffer, " \t\n") != NULL]: a character that is none of
    the three delimiters comes before the end of the string. *)
Fixpoint strtok_finds (line : list ascii) : bool :=
  match line with
  | [] => false
  | c :: rest =>
      if is_nul c then false
      else if Ascii.eqb c " " || Ascii.eqb c "009" || Ascii.eqb c "010"
           then strtok_finds rest
           else true
  end.

(** Lines 265-273.  The inner loop (lines 269-272) has an empty body and
    never changes [token]: taken as written, once entered it is not left
    (a compiler may assume that such a loop ends, C11 6.8.5p6, and drop
    it; the model does not).  The result is [true] when the outer loop is
    left, at the end of stdin, and [false] when the inner loop is
    entered. *)
Fixpoint stdin_loop (fuel : nat) (stdin : list ascii) : outcome bool :=
  match fuel with
  | 0 => OutOfFuel
  | S fuel' =>
      match fgets (MAX_SIZE - 1) stdin with
      | ([], _) => Done true
      | (line, rest) =>
          if strtok_finds line then Done false else stdin_loop fuel' rest
      end
  end.

(** What a run of the lexer leaves behind: the tokens it printed, the
    lexemes of its diagnostics, its error count and its exit status.  The
    other text it prints is left out. *)
Record run_result : Type := mkRun {
  run_tokens : list Token;
  run_diagnostics : list (option string);
  run_error_count : Z;
  exit_status : Z
}.

(** Lines 280-326: what [main] does with the value of [source_code],
    [None] for NULL and [Some buf] for a pointer to the block of [buf]. *)
Definition main_from_source (source_code : option buffer)
  : outcome run_result :=
  match source_code with
  | None => Done (mkRun [] [] 0 1)
  | Some buf =>
      st <- token_loop (S (List.length buf)) buf 0 scan_init ;;
      if (error_count st >? 0)%Z
      then Done (mkRun (tokens st) (diagnostics st) (error_count st) 1)
      else Done (mkRun (tokens st) (diagnostics st) (error_count st) 0)
  end.

(** How a process ends, if it does. *)
Inductive behaviour : Type :=
| Exits (r : run_result)
| GoesWrong      (* undefined behaviour *)
| Hangs          (* the loop of lines 269-272 *)
| Unfinished.    (* the fuel of the model is used up *)

Definition behaviour_of (m : outcome run_result) : behaviour :=
  match m with
  | Done r => Exits r
  | Undefined => GoesWrong
  | OutOfFuel => Unfinished
  end.

(** [main]: [stdin] is what the standard input holds, [args] are
    [argv[1]], [argv[2]], ... and [files] tells what opening and reading
    a file does. *)
Definition lexer_main (stdin : list ascii) (args : list string)
  (files : string -> file_state) : behaviour :=
  match stdin_loop (S (List.length stdin)) stdin with
  | Done false => Hangs
  | Done true =>
      match args with
      | [] => Exits (mkRun [] [] 0 1)
      | filename :: _ =>
          match read_file (files filename) with
          | Done source_code => behaviour_of (main_from_source source_code)
          | Undefined => GoesWrong
          | OutOfFuel => Unfinished
          end
      end
  | Undefined => GoesWrong
  | OutOfFuel => Unfinished
  end.

(** The exit status, when there is one. *)
Definition status_of (b : behaviour) : option Z :=
  match b with
  | Exits r => Some (exit_status r)
  | _ => None
  end.

(** ** Concrete buffers *)

Definition buf_of (s : string) : buffer := list_ascii_of_string s.

Definition tok (t : TokenType) (s : string) : Token := mkToken t (Some s).
Definition tok_eof : Token := mkToken TOKEN_EOF None.

Definition LF : string := String "010" EmptyString.

(** ** Notions used in the statements *)

(** [advances p r]: the result [r] of scanning a token that starts at [p]
    has its cursor after [p], is not the end-of-file token, and when it is
    an error token its lexeme holds at least one character. *)
Definition advances (p : nat) (r : Token * nat) : Prop :=
  p < snd r /\
  type (fst r) <> TOKEN_EOF /\
  (type (fst r) = TOKEN_ERROR ->
   exists s, lexeme (fst r) = Some s /\ 1 <= String.length s).

(** The result of the last of [n + 1] successive calls of
    [get_next_token], the first one at [pos], each one at the cursor the
    previous one returned. *)
Fixpoint calls (n : nat) (buf : buffer) (pos : nat) : outcome (Token * nat) :=
  match n with
  | 0 => get_next_token buf pos
  | S n' => '(_, pos1) <- get_next_token buf pos ;; calls n' buf pos1
  end.

(** A computation that did not stop for lack of fuel. *)
Definition in_time {A : Type} (m : outcome A) : Prop := m <> OutOfFuel.

Definition is_malformed (t : Token) : bool := TokenType_eqb (type t) TOKEN_ERROR.

Definition malformed_count (toks : list Token) : nat :=
  List.length (filter is_malformed toks).

(** The error count and the diagnostics agree with the tokens seen. *)
Definition counts_agree (st : scan_state) : Prop :=
  error_count st = Z.of_nat (malformed_count (tokens st)) /\
  diagnostics st = map lexeme (filter is_malformed (tokens st)).

(** ** Notions used in the further properties *)

(** The [n] characters of the block at offset [p], as a string. *)
Definition text_at (buf : buffer) (p n : nat) : string :=
  string_of_list_ascii (firstn n (from buf p)).

(** The memory starts with one of the two comment openers. *)
Definition comment_starts (mem : list ascii) : bool :=
  match mem with
  | c0 :: c1 :: _ => Ascii.eqb c0 "/" && (Ascii.eqb c1 "/" || Ascii.eqb c1 "*")
  | _ => false
  end.

(** A star directly followed by a slash occurs in the text. *)
Fixpoint closes (body : list ascii) : bool :=
  match body with
  | [] => false
  | c :: rest =>
      (Ascii.eqb c "*" &&
       match rest with d :: _ => Ascii.eqb d "/" | [] => false end)
      || closes rest
  end.

Definition nul_free (l : list ascii) : bool :=
  forallb (fun c => negb (is_nul c)) l.

Definition line_free (l : list ascii) : bool :=
  forallb (fun c => negb (Ascii.eqb c "010")) l.

(** The condition of the loop over a line comment (line 98). *)
Definition line_comment_char (c : ascii) : bool :=
  negb (is_nul c) && negb (Ascii.eqb c "010").

(** The characters of a lexeme; none for the NULL lexeme. *)
Definition lexeme_chars (t : Token) : list ascii :=
  match lexeme t with
  | Some s => list_ascii_of_string s
  | None => []
  end.

(** What [get_next_token] does at the first character after the
    whitespace, case by case: the token and the new cursor for a token
    that starts at [start]. *)
Inductive scans (buf : buffer) (start : nat) : Token -> nat -> Prop :=
| scans_simple (c : ascii) :
    load buf start = Done c ->
    simple_token_type c <> TOKEN_ERROR ->
    scans buf start
      (mkToken (simple_token_type c) (Some (text_at buf start 1)))
      (start + 1)
| scans_word (c : ascii) (n : nat) :
    load buf start = Done c ->
    isalpha c || Ascii.eqb c "_" = true ->
    while_char ident_char (from buf start) = Done n ->
    scans buf start
      (mkToken (check_keyword (text_at buf start n))
               (Some (text_at buf start n)))
      (start + n)
| scans_constant (c : ascii) (n : nat) (c' : ascii) :
    load buf start = Done c ->
    isdigit c = true ->
    while_char isdigit (from buf (start + 1)) = Done n ->
    load buf (start + (1 + n)) = Done c' ->
    ident_char c' = false ->
    scans buf start
      (mkToken TOKEN_CONSTANT (Some (text_at buf start (1 + n))))
      (start + (1 + n))
| scans_error (c : ascii) (n : nat) :
    load buf start = Done c ->
    error_run_char c = true ->
    ident_char c = false ->
    while_char error_run_char (from buf start) = Done n ->
    scans buf start
      (mkToken TOKEN_ERROR (Some (text_at buf start n)))
      (start + n)
| scans_bad_number (c : ascii) (d : nat) (c' : ascii) (n k : nat) :
    load buf start = Done c ->
    isdigit c = true ->
    while_char isdigit (from buf (start + 1)) = Done d ->
    load buf (start + (1 + d)) = Done c' ->
    ident_char c' = true ->
    while_char error_run_char (from buf start) = Done n ->
    strnlen (from buf start) (1 + d + n) = Done k ->
    scans buf start
      (mkToken TOKEN_ERROR (Some (text_at buf start k)))
      (start + (1 + d + n)).

(** The lexeme that goes with a token type whose text is fixed: the three
    keywords and the five punctuators. *)
Definition fixed_text (ty : TokenType) : option string :=
  match ty with
  | TOKEN_INT => Some "int"
  | TOKEN_VOID => Some "void"
  | TOKEN_RETURN => Some "return"
  | TOKEN_OPEN_PAREN => Some "("
  | TOKEN_CLOSE_PAREN => Some ")"
  | TOKEN_OPEN_BRACE => Some "{"
  | TOKEN_CLOSE_BRACE => Some "}"
  | TOKEN_SEMICOLON => Some ";"
  | _ => None
  end%string.

(** The types of the tokens made of letters, digits and underscores. *)
Definition word_or_number (ty : TokenType) : bool :=
  match ty with
  | TOKEN_INT | TOKEN_VOID | TOKEN_RETURN | TOKEN_IDENTIFIER
  | TOKEN_CONSTANT => true
  | _ => false
  end.

(** An error token whose lexeme starts with a digit: a digit run directly
    followed by a letter or an underscore. *)
Definition bad_number (t : Token) : bool :=
  is_malformed t &&
  match lexeme_chars t with
  | c :: _ => isdigit c
  | [] => false
  end.

(** A result with its cursor moved [k] bytes up: the same scan seen from
    a block that has [k] more bytes in front. *)
Definition shift (k : nat) (r : outcome (Token * nat)) : outcome (Token * nat) :=
  match r with
  | Done (t, p) => Done (t, k + p)
  | Undefined => Undefined
  | OutOfFuel => OutOfFuel
  end.

Definition is_eof (t : Token) : bool := TokenType_eqb (type t) TOKEN_EOF.

(** No digit of the text is directly followed by a letter or an
    underscore. *)
Fixpoint digits_delimited (l : list ascii) : bool :=
  match l with
  | [] => true
  | c :: rest =>
      negb (isdigit c &&
            match rest with
            | d :: _ => isalpha d || Ascii.eqb d "_"
            | [] => false
            end)
      && digits_delimited rest
  end.

(** The text without its whitespace. *)
Definition visible (l : list ascii) : list ascii :=
  filter (fun c => negb (isspace c)) l.

(** * The compiler driver of compiler_driver.c

    The driver talks to the operating system: it looks a file up, runs
    two commands, writes a file and removes files.  The operating system
    is a parameter of the model: a type of worlds and one function for
    each call the driver makes, which gives the answer of the call and
    the world after it.  What the driver does is kept in a log, in
    order.  [dirname] and [basename] of <libgen.h> are parameters as
    well. *)

Definition EXIT_SUCCESS : Z := 0.
Definition EXIT_FAILURE : Z := 1.
Definition MAX_PATH : nat := 1024.

(** What [stat] reports of a file, as far as [S_ISREG] looks at it. *)
Inductive file_kind : Type := Regular | NotRegular.

Inductive event : Type :=
| Stderr (text : string)               (* fprintf(stderr, ...) and perror *)
| Ran (command : string) (status : Z)  (* system(command) returned status *)
| Wrote (path : string) (text : string) (* fopen(path, "w") gave a file;
                                           text passed to fprintf, then
                                           fclose, results not looked at *)
| Removed (path : string) (ok : bool). (* remove(path), ok when it returned 0 *)

Record driver_run (world : Type) : Type := mkDriverRun {
  status : Z;
  log : list event;
  final : world
}.

Arguments mkDriverRun {world} status log final.
Arguments status {world} d.
Arguments log {world} d.
Arguments final {world} d.

(** [snprintf(dst, size, ...)] keeps the first [size - 1] characters of
    the text it formats; [strncpy(dst, src, size - 1)] followed by
    [dst[size - 1] = 0] does the same with [src]. *)
Definition truncate (size : nat) (s : string) : string :=
  substring 0 (size - 1) s.

(** The offset of the last occurrence of [c], as [strrchr] finds it. *)
Fixpoint last_index (c : ascii) (l : list ascii) : option nat :=
  match l with
  | [] => None
  | x :: rest =>
      match last_index c rest with
      | Some i => Some (S i)
      | None => if Ascii.eqb x c then Some 0 else None
      end
  end.

(** Lines 149-150: [name_len], the length of the base name without its
    last extension. *)
Definition name_len (base : string) : nat :=
  match last_index "." (list_ascii_of_string base) with
  | Some dot => dot
  | None => String.length base
  end.

(** The third argument, as lines 114-129 read it. *)
Inductive option_arg : Type :=
| NoOption
| StageOption (compiler_option : string)
| AssemblyOnly
| UnknownOption (text : string).

Definition read_option (rest : list string) : option_arg :=
  match rest with
  | [] => NoOption
  | o :: _ =>
      if String.eqb o "--lex" || String.eqb o "--parse"
         || String.eqb o "--codegen"
      then StageOption o
      else if String.eqb o "-S" then AssemblyOnly
      else UnknownOption o
  end.

Definition NL : string := String "010" EmptyString.
Definition TAB : string := String "009" EmptyString.

(** The text [run_compiler_pass] writes into the assembly file. *)
Definition stub_assembly : string :=
  (TAB ++ ".globl main" ++ NL ++ "main:" ++ NL ++ TAB ++ "ret" ++ NL)%string.

Section Driver.

Variable world : Type.
Variable os_stat : string -> world -> option file_kind.
Variable os_system : string -> world -> Z * world.
Variable os_write : string -> string -> world -> option world.
Variable os_remove : string -> world -> bool * world.
Variable dirname : string -> string.
Variable basename : string -> string.

(** [file_exists] (lines 18-26). *)
Definition file_exists (filename : string) (w : world) : bool :=
  match os_stat filename w with
  | None => false
  | Some Regular => true
  | Some NotRegular => false
  end.

(** [delete_file] (lines 33-43). *)
Definition delete_file (filename : string) (w : world)
  : driver_run world :=
  let (ok, w') := os_remove filename w in
  if ok then mkDriverRun EXIT_SUCCESS [Removed filename true] w'
  else mkDriverRun EXIT_FAILURE
         [Removed filename false;
          Stderr ("Warning: Could not delete temporary file: " ++ filename
                  ++ NL)] w'.

(** [run_compiler_pass] (lines 52-92).  [output_file] is not looked at
    when an option is given, the one case in which [main] passes NULL for
    it.  [perror] adds the text of [errno], which the model leaves out. *)
Definition run_compiler_pass (input_file output_file : string)
  (option : option string) (w : world) : driver_run world :=
  match option with
  | Some o =>
      let said :=
        if String.eqb o "--lex"
        then [Stderr ("Stub: Running lexer on " ++ input_file ++ "." ++ NL)]
        else if String.eqb o "--parse"
        then [Stderr ("Stub: Running lexer and parser on " ++ input_file
                      ++ "." ++ NL)]
        else if String.eqb o "--codegen"
        then [Stderr ("Stub: Running lexer, parser, and assembly generation on "
                      ++ input_file ++ "." ++ NL)]
        else [] in
      mkDriverRun EXIT_SUCCESS said w
  | None =>
      let said := Stderr ("Stub: Compiling " ++ input_file
                          ++ " to assembly file " ++ output_file ++ "." ++ NL) in
      match os_write output_file stub_assembly w with
      | None =>
          mkDriverRun EXIT_FAILURE
            [said; Stderr "Failed to create stub assembly file"] w
      | Some w' =>
          mkDriverRun EXIT_SUCCESS [said; Wrote output_file stub_assembly] w'
      end
  end.

(** Lines 137-159: the names the driver works with. *)
Definition final_name (input_path : string) : string :=
  let dir := dirname (truncate MAX_PATH input_path) in
  let base := basename (truncate MAX_PATH input_path) in
  truncate MAX_PATH (dir ++ "/" ++ substring 0 (name_len base) base).

Definition preprocessed_file (input_path : string) : string :=
  truncate MAX_PATH (final_name input_path ++ ".i").

Definition assembly_file (input_path : string) : string :=
  truncate MAX_PATH (final_name input_path ++ ".s").

Definition preprocess_cmd (input_path : string) : string :=
  truncate (MAX_PATH * 3)
    ("gcc -E -P " ++ input_path ++ " -o " ++ preprocessed_file input_path).

Definition assemble_link_cmd (input_path : string) : string :=
  truncate (MAX_PATH * 3)
    ("gcc " ++ assembly_file input_path ++ " -o " ++ final_name input_path).

(** Lines 163-222 of [main]: from the preprocessing on. *)
Definition compile (input_path : string) (compiler_option : option string)
  (emit_assembly_only : bool) (w : world) : driver_run world :=
  let (pre_status, w1) := os_system (preprocess_cmd input_path) w in
  let step1 := [Stderr ("Step 1: Preprocessing..." ++ NL);
                Ran (preprocess_cmd input_path) pre_status] in
  if negb (pre_status =? 0)%Z then
    mkDriverRun EXIT_FAILURE
      (step1 ++ [Stderr ("Error: Preprocessing failed." ++ NL)]) w1
  else
    match compiler_option with
    | Some o =>
        let pass := run_compiler_pass (preprocessed_file input_path) ""
                      (Some o) w1 in
        let del := delete_file (preprocessed_file input_path) (final pass) in
        mkDriverRun (status pass) (step1 ++ log pass ++ log del) (final del)
    | None =>
        let pass := run_compiler_pass (preprocessed_file input_path)
                      (assembly_file input_path) None w1 in
        let del := delete_file (preprocessed_file input_path) (final pass) in
        let step2 := step1
                     ++ [Stderr ("Step 2: Compiling to Assembly (Stub)..." ++ NL)]
                     ++ log pass ++ log del in
        if negb (status pass =? 0)%Z then
          mkDriverRun EXIT_FAILURE
            (step2 ++ [Stderr ("Error: Compiler stub failed." ++ NL)])
            (final del)
        else if emit_assembly_only then
          mkDriverRun EXIT_SUCCESS
            (step2 ++ [Stderr ("Outputting Assembly file: "
                               ++ assembly_file input_path ++ NL)])
            (final del)
        else
          let (link_status, w3) :=
            os_system (assemble_link_cmd input_path) (final del) in
          let del2 := delete_file (assembly_file input_path) w3 in
          let step3 := step2
                       ++ [Stderr ("Step 3: Assembling and Linking..." ++ NL);
                           Ran (assemble_link_cmd input_path) link_status]
                       ++ log del2 in
          if negb (link_status =? 0)%Z then
            mkDriverRun EXIT_FAILURE
              (step3 ++ [Stderr ("Error: Assembly/Linking failed." ++ NL)])
              (final del2)
          else
            mkDriverRun EXIT_SUCCESS
              (step3 ++ [Stderr ("Success: Executable created at "
                                 ++ final_name input_path ++ NL)])
              (final del2)
    end.

(** [main] (lines 102-223): [argv0] is [argv[0]] and [args] the
    arguments after it, so that [argc] is [1 + length args]. *)
Definition driver_main (argv0 : string) (args : list string) (w : world)
  : driver_run world :=
  let usage :=
    mkDriverRun EXIT_FAILURE
      [Stderr ("Usage: " ++ argv0
               ++ " <path/to/source.c> [--lex | --parse | --codegen | -S]"
               ++ NL)] w in
  match args with
  | [] => usage
  | _ :: _ :: _ :: _ => usage
  | input_path :: rest =>
      match read_option rest with
      | UnknownOption o =>
          mkDriverRun EXIT_FAILURE
            [Stderr ("Error: Unknown compiler option: " ++ o ++ NL)] w
      | opt =>
          if negb (file_exists input_path w) then
            mkDriverRun EXIT_FAILURE
              [Stderr ("Error: Input file does not exist or is not a regular file: "
                       ++ input_path ++ NL)] w
          else
            compile input_path
              (match opt with StageOption o => Some o | _ => None end)
              (match opt with AssemblyOnly => true | _ => false end) w
      end
  end.

(** The arguments are in order and the input is a regular file: what
    [main] checks before it runs anything (lines 104-135). *)
Definition accepts (args : list string) (w : world) : bool :=
  match args with
  | [input_path] => file_exists input_path w
  | [input_path; o] =>
      match read_option [o] with
      | UnknownOption _ => false
      | _ => file_exists input_path w
      end
  | _ => false
  end.

End Driver.

Definition is_stderr (e : event) : bool :=
  match e with Stderr _ => true | _ => false end.

Definition is_ran (e : event) : bool :=
  match e with Ran _ _ => true | _ => false end.

Definition is_wrote (e : event) : bool :=
  match e with Wrote _ _ => true | _ => false end.

Definition is_removed (e : event) : bool :=
  match e with Removed _ _ => true | _ => false end.

Definition is_stage_option (o : string) : bool :=
  String.eqb o "--lex" || String.eqb o "--parse" || String.eqb o "--codegen".


Definition dot_free (s : string) : bool :=
  forallb (fun c => negb (Ascii.eqb c ".")) (list_ascii_of_string s).

(** What line 153 formats into [final_name], before it is cut to
    [MAX_PATH - 1] characters. *)
Definition stemmed (dirname basename : string -> string)
  (input_path : string) : string :=
  let base := basename (truncate MAX_PATH input_path) in
  (dirname (truncate MAX_PATH input_path) ++ "/"
   ++ substring 0 (name_len base) base)%string.

(** ** A small operating system to run the driver on

    The world is the list of the files there are, all of them regular;
    every command returns 0 and changes nothing; [dirname] is always the
    current directory and [basename] the path itself. *)
Definition toy_world : Type := list string.

Definition toy_stat (path : string) (w : toy_world) : option file_kind :=
  if existsb (String.eqb path) w then Some Regular else None.

Definition toy_system (command : string) (w : toy_world) : Z * toy_world :=
  (0%Z, w).

Definition toy_write (path text : string) (w : toy_world) : option toy_world :=
  Some (path :: w).

Definition toy_remove (path : string) (w : toy_world) : bool * toy_world :=
  (existsb (String.eqb path) w,
   filter (fun f => negb (String.eqb path f)) w).

Definition toy_dirname (path : string) : string := ".".

Definition toy_basename (path : string) : string := path.

Definition toy_main : string -> list string -> toy_world -> driver_run toy_world :=
  driver_main toy_world toy_stat toy_system toy_write toy_remove
    toy_dirname toy_basename.

(** A path of 1100 letters. *)
Definition long_path : string := string_of_list_ascii (repeat "a"%char 1100).

(** * Properties *)

(** ** Outcomes *)

Lemma bind_Done {A B : Type} (m : outcome A) (k : A -> outcome B) (b : B) :
  bind m k = Done b -> exists a, m = Done a /\ k a = Done b.
Proof.
  destruct m as [a| |]; simpl; intros H; try discriminate.
  exists a; split; [reflexivity | exact H].
Qed.

(** Splits a hypothesis [x <- m ;; k = Done b] into [m = Done a] and
    [k a = Done b]. *)
Ltac bind_inv H :=
  let a := fresh "a" in
  let Ha := fresh "E" in
  apply bind_Done in H; destruct H as (a & Ha & H).

(** ** The block and reads from it *)

Lemma block_length (buf : buffer) : List.length (block buf) = S (List.length buf).
Proof. unfold block. rewrite length_app. simpl. lia. Qed.

Lemma from_add (buf : buffer) (p n : nat) :
  from buf (p + n) = skipn n (from buf p).
Proof. unfold from. rewrite Nat.add_comm. symmetry. apply skipn_skipn. Qed.

Lemma from_length (buf : buffer) (p : nat) :
  List.length (from buf p) = S (List.length buf) - p.
Proof. unfold from. rewrite length_skipn, block_length. reflexivity. Qed.

Lemma load_Done_from (buf : buffer) (p : nat) (c : ascii) :
  load buf p = Done c -> exists rest, from buf p = c :: rest.
Proof.
  unfold load. destruct (from buf p) as [|c' rest]; intros H; try discriminate.
  injection H as ->. exists rest. reflexivity.
Qed.

Lemma load_in_block (buf : buffer) (p : nat) (c : ascii) :
  load buf p = Done c -> p <= List.length buf.
Proof.
  intros H. apply load_Done_from in H as (rest & H).
  pose proof (from_length buf p) as L. rewrite H in L. simpl List.length in L. lia.
Qed.

Lemma load_outside (buf : buffer) (p : nat) :
  List.length buf < p -> load buf p = Undefined.
Proof.
  intros H. unfold load.
  destruct (from buf p) as [|c rest] eqn:E; [reflexivity|].
  pose proof (from_length buf p) as L. rewrite E in L. simpl List.length in L. lia.
Qed.

Lemma is_nul_true (c : ascii) : is_nul c = true -> c = NUL.
Proof. unfold is_nul. apply Ascii.eqb_eq. Qed.

(** A character that is not the terminator lies strictly inside the
    buffer. *)
Lemma load_not_nul_inside (buf : buffer) (p : nat) (c : ascii) :
  load buf p = Done c -> is_nul c = false -> p < List.length buf.
Proof.
  intros H N. pose proof (load_in_block _ _ _ H) as L.
  destruct (Nat.eq_dec p (List.length buf)) as [->|]; [|lia].
  unfold load, from, block in H.
  rewrite skipn_app, skipn_all, Nat.sub_diag in H. simpl in H.
  injection H as <-. discriminate.
Qed.

(** ** The loops *)

Lemma while_char_stop (cond : ascii -> bool) (mem : list ascii) (n : nat) :
  while_char cond mem = Done n ->
  exists c rest, skipn n mem = c :: rest /\ cond c = false.
Proof.
  revert n. induction mem as [|c mem IH]; simpl; intros n H; [discriminate|].
  destruct (cond c) eqn:C.
  - bind_inv H. injection H as <-. simpl. apply IH. exact E.
  - injection H as <-. exists c, mem. split; [reflexivity | exact C].
Qed.

Lemma while_char_run (cond : ascii -> bool) (mem : list ascii) (n : nat) :
  while_char cond mem = Done n -> forallb cond (firstn n mem) = true.
Proof.
  revert n. induction mem as [|c mem IH]; simpl; intros n H; [discriminate|].
  destruct (cond c) eqn:C.
  - bind_inv H. injection H as <-. simpl. rewrite C. apply IH. exact E.
  - injection H as <-. reflexivity.
Qed.

Lemma while_char_first (cond : ascii -> bool) (c : ascii) (mem : list ascii)
  (n : nat) :
  cond c = true -> while_char cond (c :: mem) = Done n -> 1 <= n.
Proof.
  simpl. intros ->. intros H. bind_inv H. injection H as <-. lia.
Qed.

Lemma while_char_none (cond : ascii -> bool) (c : ascii) (mem : list ascii) :
  cond c = false -> while_char cond (c :: mem) = Done 0.
Proof. simpl. intros ->. reflexivity. Qed.

(** A loop whose condition fails on the terminator stops inside the
    block. *)
Lemma while_char_total (cond : ascii -> bool) (l : list ascii) :
  cond NUL = false ->
  exists n, while_char cond (l ++ [NUL]) = Done n /\ n <= List.length l.
Proof.
  intros HN. induction l as [|c l (n & IH & L)]; simpl.
  - rewrite HN. exists 0. split; [reflexivity | lia].
  - destruct (cond c).
    + rewrite IH. simpl. exists (S n). split; [reflexivity | lia].
    + exists 0. split; [reflexivity | lia].
Qed.

Lemma from_inside (buf : buffer) (p : nat) :
  p <= List.length buf -> from buf p = skipn p buf ++ [NUL].
Proof.
  intros H. unfold from, block. rewrite skipn_app.
  replace (p - List.length buf) with 0 by lia. reflexivity.
Qed.

Lemma while_char_from (cond : ascii -> bool) (buf : buffer) (p : nat) :
  cond NUL = false -> p <= List.length buf ->
  exists n, while_char cond (from buf p) = Done n /\ p + n <= List.length buf.
Proof.
  intros HN H. rewrite (from_inside _ _ H).
  destruct (while_char_total cond (skipn p buf) HN) as (n & E & L).
  exists n. split; [exact E|]. rewrite length_skipn in L. lia.
Qed.

Lemma strnlen_le_length (mem : list ascii) (n k : nat) :
  strnlen mem n = Done k -> k <= List.length mem.
Proof.
  revert mem k. induction n as [|n IH]; simpl; intros mem k H.
  - injection H as <-. lia.
  - destruct mem as [|c mem]; [discriminate|].
    destruct (is_nul c).
    + injection H as <-. lia.
    + bind_inv H. injection H as <-. apply IH in E. simpl. lia.
Qed.

Lemma strnlen_total (l : list ascii) (n : nat) :
  exists k, strnlen (l ++ [NUL]) n = Done k.
Proof.
  revert n. induction l as [|c l IH]; intros [|n]; simpl; eauto.
  destruct (is_nul c); eauto.
  destruct (IH n) as (k & ->). simpl. eauto.
Qed.

Lemma string_length_of_list (l : list ascii) :
  String.length (string_of_list_ascii l) = List.length l.
Proof. induction l as [|c l IH]; simpl; congruence. Qed.

(** [strndup] of at least one character at a character that is not the
    terminator copies at least one character. *)
Lemma strndup_nonempty (buf : buffer) (p n : nat) (c : ascii) (s : string) :
  load buf p = Done c -> is_nul c = false -> 1 <= n ->
  strndup buf p n = Done s -> 1 <= String.length s.
Proof.
  intros L N Hn H. apply load_Done_from in L as (rest & L).
  unfold strndup in H. rewrite L in H. bind_inv H. injection H as <-.
  destruct n as [|n]; [lia|]. simpl in E. rewrite N in E.
  bind_inv E. injection E as <-. simpl. lia.
Qed.

Lemma int_count_Done (n m : nat) :
  int_count n = Done m -> m = n /\ (Z.of_nat n <= INT_MAX)%Z.
Proof.
  unfold int_count. destruct (Z.leb_spec (Z.of_nat n) INT_MAX) as [L|L];
    intros H; [|discriminate].
  injection H as <-. split; [reflexivity | exact L].
Qed.

(** ** Token types produced by the stages *)

Lemma simple_token_type_not_eof (c : ascii) : simple_token_type c <> TOKEN_EOF.
Proof.
  unfold simple_token_type.
  repeat match goal with |- context [if ?b then _ else _] => destruct b end;
    discriminate.
Qed.

Lemma check_keyword_range (s : string) :
  check_keyword s <> TOKEN_EOF /\ check_keyword s <> TOKEN_ERROR.
Proof.
  unfold check_keyword.
  repeat match goal with |- context [if ?b then _ else _] => destruct b end;
    split; discriminate.
Qed.

Lemma TokenType_eqb_eq (a b : TokenType) : TokenType_eqb a b = true <-> a = b.
Proof. destruct a, b; simpl; split; intros H; congruence. Qed.

Lemma TokenType_eqb_neq (a b : TokenType) : TokenType_eqb a b = false <-> a <> b.
Proof. destruct a, b; simpl; split; intros H; congruence. Qed.

(** ** What a call that does not report end of file returns *)

Section Stages.

Variable buf : buffer.
Variable input : nat.
Variable c : ascii.
Hypothesis Hload : load buf input = Done c.
Hypothesis Hc : is_nul c = false.

Lemma error_run_advances (len : nat) (r : Token * nat) :
  error_run buf input len = Done r -> advances input r.
Proof.
  unfold error_run. intros H.
  bind_inv H. bind_inv H. bind_inv H. injection H as <-.
  assert (S1 : 1 <= (if 0 <? a0 then a0 else 1)).
  { destruct (Nat.ltb_spec 0 a0); lia. }
  unfold advances; simpl. repeat split.
  - lia.
  - discriminate.
  - intros _. exists a1. split; [reflexivity|].
    eapply strndup_nonempty; eauto.
Qed.

Lemma constant_or_error_advances (r : Token * nat) :
  constant_or_error buf input = Done r -> advances input r.
Proof.
  unfold constant_or_error. rewrite Hload. simpl.
  destruct (isdigit c); [|apply error_run_advances].
  intros H. bind_inv H. bind_inv H. bind_inv H.
  destruct (negb (isalnum a1) && negb (Ascii.eqb a1 "_")).
  - bind_inv H. injection H as <-.
    apply int_count_Done in E0 as [-> _].
    unfold advances; simpl. repeat split; try discriminate. lia.
  - eapply error_run_advances; eauto.
Qed.

Lemma identifier_or_later_advances (r : Token * nat) :
  identifier_or_later buf input = Done r -> advances input r.
Proof.
  unfold identifier_or_later. rewrite Hload. simpl.
  destruct (isalpha c || Ascii.eqb c "_") eqn:A;
    [|apply constant_or_error_advances].
  intros H. bind_inv H. bind_inv H. bind_inv H.
  destruct (negb (isalnum a1) && negb (Ascii.eqb a1 "_")).
  - bind_inv H. injection H as <-.
    apply int_count_Done in E0 as [-> _].
    destruct (load_Done_from _ _ _ Hload) as (rest & F).
    rewrite F in E. apply while_char_first in E.
    + unfold advances; simpl. repeat split.
      * lia.
      * apply check_keyword_range.
      * intros K. exfalso. revert K. apply check_keyword_range.
    + unfold ident_char, isalnum.
      apply orb_true_iff in A as [A|A]; rewrite A; simpl;
        [reflexivity | apply orb_true_r].
  - eapply constant_or_error_advances; eauto.
Qed.

End Stages.

(** The two ways a call of [get_next_token] at [pos] can return: at the
    terminator, after whitespace only, with the end-of-file token and the
    cursor on the terminator; or with a token that starts at the first
    character after the whitespace and a cursor after that character. *)
Lemma get_next_token_cases (buf : buffer) (pos : nat) (t : Token) (pos' : nat) :
  get_next_token buf pos = Done (t, pos') ->
  exists start, skip_whitespace buf pos = Done start /\ pos <= start /\
    ((t = mkToken TOKEN_EOF None /\ pos' = start /\ load buf start = Done NUL)
     \/ (start < List.length buf /\ advances start (t, pos'))).
Proof.
  unfold get_next_token. intros H. bind_inv H. exists a.
  split; [exact E|]. split.
  { unfold skip_whitespace in E. bind_inv E. injection E as <-. lia. }
  bind_inv H. destruct (is_nul a0) eqn:N.
  - left. injection H as <- <-. apply is_nul_true in N. subst a0. auto.
  - right. split; [eapply load_not_nul_inside; eauto|].
    destruct (negb (TokenType_eqb (simple_token_type a0) TOKEN_ERROR)) eqn:S.
    + bind_inv H. injection H as <- <-.
      apply negb_true_iff, TokenType_eqb_neq in S.
      unfold advances; simpl. repeat split.
      * lia.
      * apply simple_token_type_not_eof.
      * intros K. contradiction.
    + eapply identifier_or_later_advances; eauto.
Qed.

(** ** Successive calls *)

Lemma get_next_token_at_terminator (buf : buffer) (pos : nat) :
  load buf pos = Done NUL ->
  get_next_token buf pos = Done (mkToken TOKEN_EOF None, pos).
Proof.
  intros L. unfold get_next_token, skip_whitespace.
  destruct (load_Done_from _ _ _ L) as (rest & F).
  rewrite F, while_char_none by reflexivity.
  simpl. rewrite Nat.add_0_r, L. reflexivity.
Qed.

(** The cursor never moves back, and it stays where it was only at the
    terminator, where the token is the end-of-file token. *)
Lemma get_next_token_progress (buf : buffer) (pos : nat) (t : Token)
  (pos' : nat) :
  get_next_token buf pos = Done (t, pos') ->
  pos <= pos' /\
  (pos' = pos -> type t = TOKEN_EOF /\ load buf pos = Done NUL) /\
  (type t <> TOKEN_EOF -> pos < pos').
Proof.
  intros H. apply get_next_token_cases in H as (start & _ & L & [C|C]).
  - destruct C as (-> & -> & N). split; [exact L|]. split.
    + intros ->. split; [reflexivity | exact N].
    + intros K. exfalso. apply K. reflexivity.
  - destruct C as (_ & A & _). simpl in A. split; [lia|]. split; intros; lia.
Qed.

(** ** Totality of a call inside the block *)

Lemma load_total (buf : buffer) (p : nat) :
  p <= List.length buf -> exists c, load buf p = Done c.
Proof.
  intros H. unfold load. rewrite (from_inside _ _ H).
  destruct (skipn p buf) as [|c rest]; simpl; eauto.
Qed.

Lemma strndup_total (buf : buffer) (p n : nat) :
  p <= List.length buf -> exists s, strndup buf p n = Done s.
Proof.
  intros H. unfold strndup. rewrite (from_inside _ _ H).
  destruct (strnlen_total (skipn p buf) n) as (k & ->). simpl. eauto.
Qed.

Lemma int_count_total (n : nat) :
  (Z.of_nat n <= INT_MAX)%Z -> int_count n = Done n.
Proof.
  intros H. unfold int_count.
  destruct (Z.leb_spec (Z.of_nat n) INT_MAX); [reflexivity | lia].
Qed.

Lemma error_run_char_NUL : error_run_char NUL = false.
Proof. reflexivity. Qed.

Section Totality.

Variable buf : buffer.
Hypothesis Hsize : (2 * Z.of_nat (List.length buf) <= INT_MAX)%Z.

Lemma error_run_total (input len : nat) :
  input <= List.length buf -> len <= List.length buf ->
  exists r, error_run buf input len = Done r.
Proof.
  intros Hi Hl. unfold error_run.
  destruct (while_char_from error_run_char buf input error_run_char_NUL Hi)
    as (n & -> & Ln).
  simpl. rewrite int_count_total by lia. simpl.
  destruct (strndup_total buf input (if 0 <? len + n then len + n else 1) Hi)
    as (s & ->).
  simpl. eauto.
Qed.

Lemma constant_or_error_total (input : nat) :
  input < List.length buf -> exists r, constant_or_error buf input = Done r.
Proof.
  intros Hi. unfold constant_or_error.
  destruct (load_total buf input) as (c & ->); [lia|]. cbn [bind].
  destruct (isdigit c); [|apply error_run_total; lia].
  destruct (while_char_from isdigit buf (input + 1)) as (n & -> & Ln);
    [reflexivity | lia |].
  cbn [bind]. rewrite int_count_total by lia. cbn [bind].
  destruct (load_total buf (input + (1 + n))) as (c' & ->); [lia|].
  cbn [bind].
  destruct (negb (isalnum c') && negb (Ascii.eqb c' "_")).
  - destruct (strndup_total buf input (1 + n)) as (s & ->); [lia|].
    simpl. eauto.
  - apply error_run_total; lia.
Qed.

Lemma identifier_or_later_total (input : nat) :
  input < List.length buf -> exists r, identifier_or_later buf input = Done r.
Proof.
  intros Hi. unfold identifier_or_later.
  destruct (load_total buf input) as (c & ->); [lia|]. cbn [bind].
  destruct (isalpha c || Ascii.eqb c "_");
    [|apply constant_or_error_total; exact Hi].
  destruct (while_char_from ident_char buf input) as (n & -> & Ln);
    [reflexivity | lia |].
  cbn [bind]. rewrite int_count_total by lia. cbn [bind].
  destruct (load_total buf (input + n)) as (c' & ->); [lia|].
  cbn [bind].
  destruct (negb (isalnum c') && negb (Ascii.eqb c' "_")).
  - destruct (strndup_total buf input n) as (s & ->); [lia|].
    simpl. eauto.
  - apply constant_or_error_total; exact Hi.
Qed.

(** From a cursor inside the block a call returns a token: every read of
    the call stays inside the block. *)
Lemma get_next_token_total (pos : nat) :
  pos <= List.length buf ->
  exists t pos', get_next_token buf pos = Done (t, pos').
Proof.
  intros Hp. unfold get_next_token, skip_whitespace.
  destruct (while_char_from (fun c => negb (is_nul c) && isspace c) buf pos)
    as (n & -> & Ln); [reflexivity | exact Hp |].
  cbn [bind].
  destruct (load_total buf (pos + n) Ln) as (c & L). rewrite L. cbn [bind].
  destruct (is_nul c) eqn:N; [eauto|].
  pose proof (load_not_nul_inside _ _ _ L N) as Hin.
  destruct (negb (TokenType_eqb (simple_token_type c) TOKEN_ERROR)).
  - destruct (strndup_total buf (pos + n) 1 Ln) as (s & ->). simpl. eauto.
  - destruct (identifier_or_later_total (pos + n) Hin) as ([t pos'] & ->).
    eauto.
Qed.

End Totality.

(** ** Only the token loop can run out of fuel *)

Lemma bind_in_time {A B : Type} (m : outcome A) (k : A -> outcome B) :
  in_time m -> (forall a, m = Done a -> in_time (k a)) -> in_time (bind m k).
Proof.
  unfold in_time. destruct m as [a| |]; simpl; intros Hm Hk.
  - apply Hk. reflexivity.
  - discriminate.
  - contradiction.
Qed.

Lemma while_char_in_time (cond : ascii -> bool) (mem : list ascii) :
  in_time (while_char cond mem).
Proof.
  induction mem as [|c mem IH]; simpl; [discriminate|].
  destruct (cond c); [|discriminate].
  apply bind_in_time; [exact IH | discriminate].
Qed.

Lemma strnlen_in_time (mem : list ascii) (n : nat) : in_time (strnlen mem n).
Proof.
  revert mem. induction n as [|n IH]; intros [|c mem]; simpl; try discriminate.
  destruct (is_nul c); [discriminate|].
  apply bind_in_time; [apply IH | discriminate].
Qed.

Lemma load_in_time (buf : buffer) (p : nat) : in_time (load buf p).
Proof. unfold load. destruct (from buf p); discriminate. Qed.

Lemma int_count_in_time (n : nat) : in_time (int_count n).
Proof. unfold int_count. destruct (_ <=? _)%Z; discriminate. Qed.

Lemma strndup_in_time (buf : buffer) (p n : nat) : in_time (strndup buf p n).
Proof.
  unfold strndup. apply bind_in_time; [apply strnlen_in_time | discriminate].
Qed.

Create HintDb in_time.
#[local] Hint Resolve while_char_in_time strnlen_in_time load_in_time
  int_count_in_time strndup_in_time : in_time.

(** Walks through a chain of binds whose steps are all in the database. *)
Ltac in_time_steps :=
  repeat first
    [ apply bind_in_time; [solve [auto with in_time] | intros ? ?]
    | match goal with |- in_time (if ?b then _ else _) => destruct b end
    | discriminate
    | solve [auto with in_time] ].

Lemma error_run_in_time (buf : buffer) (p len : nat) :
  in_time (error_run buf p len).
Proof. unfold error_run. in_time_steps. Qed.

#[local] Hint Resolve error_run_in_time : in_time.

Lemma constant_or_error_in_time (buf : buffer) (p : nat) :
  in_time (constant_or_error buf p).
Proof. unfold constant_or_error. in_time_steps. Qed.

#[local] Hint Resolve constant_or_error_in_time : in_time.

Lemma identifier_or_later_in_time (buf : buffer) (p : nat) :
  in_time (identifier_or_later buf p).
Proof. unfold identifier_or_later. in_time_steps. Qed.

#[local] Hint Resolve identifier_or_later_in_time : in_time.

Lemma skip_whitespace_in_time (buf : buffer) (p : nat) :
  in_time (skip_whitespace buf p).
Proof. unfold skip_whitespace. in_time_steps. Qed.

#[local] Hint Resolve skip_whitespace_in_time : in_time.

Lemma get_next_token_in_time (buf : buffer) (p : nat) :
  in_time (get_next_token buf p).
Proof. unfold get_next_token. in_time_steps. Qed.

Lemma report_error_in_time (t : Token) (st : scan_state) :
  in_time (report_error t st).
Proof. unfold report_error. in_time_steps. Qed.

Lemma get_next_token_outside (buf : buffer) (pos : nat) :
  List.length buf < pos -> get_next_token buf pos = Undefined.
Proof.
  intros H. unfold get_next_token, skip_whitespace, from.
  rewrite skipn_all2 by (rewrite block_length; lia). reflexivity.
Qed.

(** The fuel [tokenize_all] gives the loop is never used up: a run of the
    loop ends, either with the end-of-file token or in undefined
    behaviour. *)
Lemma token_loop_in_time (fuel : nat) (buf : buffer) (pos : nat)
  (st : scan_state) :
  1 <= fuel -> List.length buf < fuel + pos ->
  in_time (token_loop fuel buf pos st).
Proof.
  revert pos st. induction fuel as [|fuel IH]; intros pos st F1 F2; [lia|].
  simpl. apply bind_in_time; [apply get_next_token_in_time|].
  intros [t pos'] G.
  apply bind_in_time; [apply report_error_in_time|]. intros st' _.
  destruct (negb (TokenType_eqb (type t) TOKEN_EOF)) eqn:T; [|discriminate].
  apply negb_true_iff, TokenType_eqb_neq in T.
  apply get_next_token_cases in G as (start & _ & L & [C|C]).
  - destruct C as (-> & _). contradiction T. reflexivity.
  - destruct C as (I & A & _). simpl in A. apply IH; lia.
Qed.

Lemma tokenize_all_in_time (buf : buffer) : in_time (tokenize_all buf).
Proof.
  unfold tokenize_all. apply bind_in_time; [|discriminate].
  apply token_loop_in_time; lia.
Qed.

Lemma block_comment_body_in_time (mem : list ascii) :
  in_time (block_comment_body mem).
Proof.
  induction mem as [|c mem IH]; simpl; [discriminate|].
  destruct (is_nul c); [discriminate|].
  destruct (Ascii.eqb c "*").
  - destruct mem as [|c1 mem']; [discriminate|].
    destruct (Ascii.eqb c1 "/"); [discriminate|].
    apply bind_in_time; [exact IH | discriminate].
  - apply bind_in_time; [exact IH | discriminate].
Qed.

(** The fuel [skip_comments] gives its outer loop is never used up: every
    round of the loop that goes on has moved [input] forward. *)
Lemma skip_comments_loop_in_time (fuel : nat) (buf : buffer) (input : nat) :
  1 <= fuel -> List.length buf < fuel + input ->
  in_time (skip_comments_loop fuel buf input).
Proof.
  revert input. induction fuel as [|fuel IH]; intros input F1 F2; [lia|].
  cbn [skip_comments_loop].
  apply bind_in_time; [apply load_in_time|]. intros c0 L0.
  destruct (is_nul c0) eqn:N; [discriminate|].
  pose proof (load_not_nul_inside _ _ _ L0 N) as I.
  destruct (Ascii.eqb c0 "/") eqn:S0; [|discriminate].
  apply bind_in_time; [apply load_in_time|]. intros c1 _.
  destruct (Ascii.eqb c1 "/").
  - apply bind_in_time; [apply while_char_in_time|]. intros n W.
    apply Ascii.eqb_eq in S0. subst c0.
    destruct (load_Done_from _ _ _ L0) as (rest & F).
    rewrite F in W. apply while_char_first in W; [|reflexivity].
    apply IH; lia.
  - destruct (Ascii.eqb c1 "*"); [|discriminate].
    cbv zeta.
    apply bind_in_time; [apply block_comment_body_in_time|]. intros n _.
    apply bind_in_time; [apply load_in_time|]. intros c _.
    destruct (negb (is_nul c)); apply IH; lia.
Qed.

Lemma skip_comments_in_time (buf : buffer) (input : nat) :
  in_time (skip_comments buf input).
Proof. apply skip_comments_loop_in_time; lia. Qed.

(** More fuel does not change the result of a run that ended. *)
Lemma token_loop_more_fuel (fuel fuel' : nat) (buf : buffer) (pos : nat)
  (st : scan_state) :
  fuel <= fuel' -> in_time (token_loop fuel buf pos st) ->
  token_loop fuel' buf pos st = token_loop fuel buf pos st.
Proof.
  revert fuel' pos st. induction fuel as [|fuel IH]; intros fuel' pos st L T.
  - contradiction T. reflexivity.
  - destruct fuel' as [|fuel']; [lia|]. simpl in *.
    destruct (get_next_token buf pos) as [[t pos']| |]; simpl in *;
      try reflexivity.
    destruct (report_error t _) as [st'| |]; simpl in *; try reflexivity.
    destruct (negb (TokenType_eqb (type t) TOKEN_EOF)); [|reflexivity].
    apply IH; [lia | exact T].
Qed.

(** ** Error counting in the token loop *)

Lemma filter_snoc {A : Type} (f : A -> bool) (l : list A) (x : A) :
  filter f (l ++ [x]) = filter f l ++ (if f x then [x] else []).
Proof. rewrite filter_app. reflexivity. Qed.

Lemma report_error_keeps (t : Token) (toks : list Token) (st st' : scan_state) :
  counts_agree st -> report_error t (mkScan (tokens st ++ [t]) (diagnostics st)
                                            (error_count st)) = Done st' ->
  counts_agree st' /\ tokens st' = tokens st ++ [t].
Proof.
  unfold counts_agree, report_error, malformed_count. simpl.
  intros (C & D) H. fold (is_malformed t) in H.
  destruct (is_malformed t) eqn:M.
  - destruct (error_count st <? INT_MAX)%Z; [|discriminate].
    injection H as <-. simpl. rewrite filter_snoc, M, length_app, map_app.
    simpl. repeat split; [lia | congruence].
  - injection H as <-. simpl. rewrite filter_snoc, M, app_nil_r. auto.
Qed.

Lemma token_loop_counts (fuel : nat) (buf : buffer) (pos : nat)
  (st st' : scan_state) :
  counts_agree st -> token_loop fuel buf pos st = Done st' -> counts_agree st'.
Proof.
  revert pos st. induction fuel as [|fuel IH]; intros pos st C H;
    [discriminate|].
  simpl in H. bind_inv H. destruct a as [t pos']. bind_inv H.
  apply (report_error_keeps t (tokens st)) in E0 as (C' & _); [|exact C].
  destruct (negb (TokenType_eqb (type t) TOKEN_EOF)).
  - eapply IH; eauto.
  - injection H as <-. exact C'.
Qed.

Lemma scan_init_counts : counts_agree scan_init.
Proof. split; reflexivity. Qed.

(** ** Runs of whitespace *)

Lemma while_char_all (cond : ascii -> bool) (l : list ascii) :
  forallb cond l = true -> cond NUL = false ->
  while_char cond (l ++ [NUL]) = Done (List.length l).
Proof.
  intros A N. induction l as [|c l IH]; simpl in *.
  - rewrite N. reflexivity.
  - apply andb_true_iff in A as (-> & A). rewrite (IH A). reflexivity.
Qed.

Lemma isspace_not_nul (c : ascii) : isspace c = true -> is_nul c = false.
Proof.
  intros S. destruct (is_nul c) eqn:N; [|reflexivity].
  apply is_nul_true in N. subst c. discriminate.
Qed.

(** A buffer of whitespace only gives the end-of-file token and nothing
    else. *)
Lemma whitespace_only_buffer (buf : buffer) :
  forallb isspace buf = true -> tokenize_all buf = Done ([tok_eof], 0%Z).
Proof.
  intros W. unfold tokenize_all. cbn [token_loop].
  unfold get_next_token, skip_whitespace, from. rewrite skipn_0. unfold block.
  rewrite while_char_all; [|clear -W|reflexivity].
  - cbn [bind Nat.add]. unfold load, from, block.
    rewrite skipn_app, skipn_all, Nat.sub_diag. reflexivity.
  - induction buf as [|c buf IH]; simpl in *; [reflexivity|].
    apply andb_true_iff in W as (S & W).
    rewrite S, (isspace_not_nul _ S), (IH W). reflexivity.
Qed.

(** ** The extent of an error run *)

Lemma strnlen_run (mem : list ascii) (n : nat) :
  n <= List.length mem ->
  forallb (fun c => negb (is_nul c)) (firstn n mem) = true ->
  strnlen mem n = Done n.
Proof.
  revert mem. induction n as [|n IH]; intros [|c mem] L A; simpl in *;
    try reflexivity; try lia.
  apply andb_true_iff in A as (N & A). apply negb_true_iff in N.
  rewrite N, IH by (assumption || lia). reflexivity.
Qed.

Lemma error_run_char_not_nul (c : ascii) :
  error_run_char c = true -> negb (is_nul c) = true.
Proof.
  unfold error_run_char. intros H.
  repeat (apply andb_true_iff in H as (H & _)). exact H.
Qed.

(** With [len] at zero the error run is the longest stretch of characters
    that are neither whitespace nor one of the five punctuators, up to the
    terminator: it takes in letters and digits that follow. *)
Lemma error_run_maximal (buf : buffer) (p : nat) (c : ascii) (t : Token)
  (p' : nat) :
  load buf p = Done c -> error_run_char c = true ->
  error_run buf p 0 = Done (t, p') ->
  exists n, 1 <= n /\ p' = p + n /\
    t = mkToken TOKEN_ERROR
          (Some (string_of_list_ascii (firstn n (from buf p)))) /\
    forallb error_run_char (firstn n (from buf p)) = true /\
    exists c', load buf p' = Done c' /\ error_run_char c' = false.
Proof.
  intros L C H. unfold error_run in H. cbn [Nat.add] in H.
  bind_inv H. bind_inv H. apply int_count_Done in E0 as (-> & _).
  destruct (load_Done_from _ _ _ L) as (rest & F).
  assert (N : 1 <= a) by (rewrite F in E; eapply while_char_first; eauto).
  destruct (Nat.ltb_spec 0 a) as [_|]; [|lia].
  pose proof (while_char_run _ _ _ E) as R.
  destruct (while_char_stop _ _ _ E) as (c' & rest' & K & C').
  unfold strndup in H. rewrite strnlen_run in H.
  - cbn [bind] in H. injection H as <- <-. exists a.
    repeat split; try assumption.
    exists c'. unfold load. rewrite from_add, K. auto.
  - apply (f_equal (@List.length ascii)) in K.
    rewrite length_skipn in K. simpl in K. lia.
  - clear -R. revert R. generalize (firstn a (from buf p)).
    induction l as [|x l IH]; simpl; [reflexivity|].
    intros R. apply andb_true_iff in R as (X & R).
    rewrite (error_run_char_not_nul _ X), (IH R). reflexivity.
Qed.

(** * The claims of the specification *)

(** ** Concrete scenarios *)

(** C5: for the input [int main(void){return 2;}] the scan gives the
    tokens Int, Identifier "main", OpenParen, Void, CloseParen, OpenBrace,
    Return, Constant "2", Semicolon, CloseBrace, EndOfInput, and counts no
    malformed token. *)
Theorem scenario_A_tokens :
  tokenize_all (buf_of "int main(void){return 2;}") =
  Done ([tok TOKEN_INT "int"; tok TOKEN_IDENTIFIER "main";
         tok TOKEN_OPEN_PAREN "("; tok TOKEN_VOID "void";
         tok TOKEN_CLOSE_PAREN ")"; tok TOKEN_OPEN_BRACE "{";
         tok TOKEN_RETURN "return"; tok TOKEN_CONSTANT "2";
         tok TOKEN_SEMICOLON ";"; tok TOKEN_CLOSE_BRACE "}"; tok_eof], 0%Z).
Proof. vm_compute. reflexivity. Qed.

(** C3, as the specification states it, fails: for the input [foo$bar]
    the scan does not give Identifier "foo", Malformed "$",
    Identifier "bar", EndOfInput, whatever the error count. *)
Lemma scenario_B_counterexample :
  ~ exists n, tokenize_all (buf_of "foo$bar") =
              Done ([tok TOKEN_IDENTIFIER "foo"; tok TOKEN_ERROR "$";
                     tok TOKEN_IDENTIFIER "bar"; tok_eof], n).
Proof. intros (n & H). vm_compute in H. discriminate H. Qed.

(** C3, amended: for the input [foo$bar] the scan gives Identifier "foo",
    Malformed "$bar", EndOfInput, with one malformed token counted: the
    error run that starts at the dollar sign takes in the letters after
    it, up to the end of the buffer. *)
Theorem scenario_B_tokens :
  tokenize_all (buf_of "foo$bar") =
  Done ([tok TOKEN_IDENTIFIER "foo"; tok TOKEN_ERROR "$bar"; tok_eof], 1%Z).
Proof. vm_compute. reflexivity. Qed.

(** C1 does not hold of the code: [get_next_token] calls [skip_whitespace]
    only, never [skip_comments].  For the input [/* unterminated] the scan
    gives Malformed "/*", Identifier "unterminated", EndOfInput and counts
    one malformed token, whereas [skip_comments] at the start of that
    buffer moves to the terminator. *)
Theorem unterminated_comment_not_skipped :
  tokenize_all (buf_of "/* unterminated") =
  Done ([tok TOKEN_ERROR "/*"; tok TOKEN_IDENTIFIER "unterminated"; tok_eof],
        1%Z) /\
  skip_comments (buf_of "/* unterminated") 0 = Done 15 /\
  load (buf_of "/* unterminated") 15 = Done NUL.
Proof. vm_compute. auto. Qed.

(** C4 does not hold of the code, comments not being skipped: the input
    of a line comment, a newline and [int x;] gives Malformed "//",
    Identifier "comment", Int, Identifier "x", Semicolon, EndOfInput; and
    a block comment put between the first two tokens of [int x;], a text
    that scans without malformed token, adds a Malformed token. *)
Theorem comments_change_tokens :
  tokenize_all (buf_of ("// comment" ++ LF ++ "int x;")) =
  Done ([tok TOKEN_ERROR "//"; tok TOKEN_IDENTIFIER "comment";
         tok TOKEN_INT "int"; tok TOKEN_IDENTIFIER "x";
         tok TOKEN_SEMICOLON ";"; tok_eof], 1%Z) /\
  tokenize_all (buf_of "int x;") =
  Done ([tok TOKEN_INT "int"; tok TOKEN_IDENTIFIER "x";
         tok TOKEN_SEMICOLON ";"; tok_eof], 0%Z) /\
  tokenize_all (buf_of "int /*c*/ x;") =
  Done ([tok TOKEN_INT "int"; tok TOKEN_ERROR "/*c*/";
         tok TOKEN_IDENTIFIER "x"; tok TOKEN_SEMICOLON ";"; tok_eof], 1%Z).
Proof. vm_compute. auto. Qed.

(** ** The digit run that is not a constant *)

(** C2 does not hold of the code: the digit count is still in [len] when
    the error run is measured, so for [12abc;] the first token is
    Malformed "12abc;" (seven characters asked of [strndup], six before
    the terminator) and the cursor moves by seven.  With [len] at zero the
    same run gives Malformed "12abc" and the cursor on the semicolon. *)
Theorem digits_then_letters_overrun :
  get_next_token (buf_of "12abc;") 0 = Done (tok TOKEN_ERROR "12abc;", 7) /\
  error_run (buf_of "12abc;") 0 0 = Done (tok TOKEN_ERROR "12abc", 5) /\
  get_next_token (buf_of "12abc;") 5 = Done (tok TOKEN_SEMICOLON ";", 6).
Proof. vm_compute. auto. Qed.

(** C10 does not hold of the code: for [12abc;], whose terminator is at
    offset 6, the call at offset 0 returns the cursor 7, outside the
    block, where no read is defined. *)
Theorem cursor_past_terminator :
  exists t pos',
    get_next_token (buf_of "12abc;") 0 = Done (t, pos') /\
    load (buf_of "12abc;") 6 = Done NUL /\
    6 < pos' /\
    load (buf_of "12abc;") pos' = Undefined.
Proof.
  exists (tok TOKEN_ERROR "12abc;"), 7. vm_compute. repeat split. lia.
Qed.

(** C6 does not hold of the code in its last part: the scan of [12abc;]
    does not end with a token sequence; its second call of
    [get_next_token] reads outside the block. *)
Theorem scan_leaves_block :
  tokenize_all (buf_of "12abc;") = Undefined /\
  calls 1 (buf_of "12abc;") 0 = Undefined.
Proof. vm_compute. auto. Qed.

(** ** Invariants of [get_next_token] *)

(** C7: whatever the buffer and the cursor, an error token returned by
    [get_next_token] has a lexeme of at least one character. *)
Theorem malformed_lexeme_nonempty (buf : buffer) (pos : nat) (t : Token)
  (pos' : nat) :
  get_next_token buf pos = Done (t, pos') ->
  type t = TOKEN_ERROR ->
  exists s, lexeme t = Some s /\ 1 <= String.length s.
Proof.
  intros H T. apply get_next_token_cases in H as (start & _ & _ & [C|C]).
  - destruct C as (-> & _). discriminate T.
  - destruct C as (_ & _ & _ & A). apply A. exact T.
Qed.

Lemma malformed_lexeme_nonempty_witness :
  exists s, lexeme (tok TOKEN_ERROR "$bar") = Some s /\ 1 <= String.length s.
Proof.
  apply (malformed_lexeme_nonempty (buf_of "foo$bar") 3 _ 7);
    vm_compute; reflexivity.
Defined.

(** C8: once [get_next_token] has returned the end-of-file token with
    some cursor, every later call from that cursor returns the end-of-file
    token and the same cursor, however many calls are made. *)
Theorem eof_is_terminal (buf : buffer) (pos : nat) (t : Token) (pos' : nat) :
  get_next_token buf pos = Done (t, pos') ->
  type t = TOKEN_EOF ->
  forall n, calls n buf pos' = Done (t, pos').
Proof.
  intros H T. apply get_next_token_cases in H as (start & _ & _ & [C|C]).
  - destruct C as (-> & -> & N).
    pose proof (get_next_token_at_terminator _ _ N) as G.
    induction n as [|n IH]; simpl; [exact G|].
    rewrite G. simpl. exact IH.
  - destruct C as (_ & _ & A & _). contradiction.
Qed.

Lemma eof_is_terminal_witness :
  calls 3 (buf_of "x;  ") 4 = Done (tok_eof, 4).
Proof.
  apply (eof_is_terminal (buf_of "x;  ") 2 tok_eof 4); vm_compute; reflexivity.
Defined.

(** ** The exit status *)

(** Lines 280-326 on their own: when they get to their end, the exit
    status is 0 or 1; it is 0 exactly when [source_code] points to a
    buffer and the scan gave no error token; it is 1 when [source_code]
    is NULL and when the scan gave an error token; the error count is the
    number of error tokens, and the diagnostics are the lexemes of the
    error tokens, one each, in their order; the tokens and the count are
    those of the whole scan. *)
Lemma main_from_source_exit_status (source_code : option buffer)
  (r : run_result) :
  main_from_source source_code = Done r ->
  (exit_status r = 0 \/ exit_status r = 1)%Z /\
  (exit_status r = 0%Z <->
   (exists buf, source_code = Some buf) /\ malformed_count (run_tokens r) = 0) /\
  (source_code = None -> exit_status r = 1%Z) /\
  (0 < malformed_count (run_tokens r) -> exit_status r = 1%Z) /\
  run_error_count r = Z.of_nat (malformed_count (run_tokens r)) /\
  run_diagnostics r = map lexeme (filter is_malformed (run_tokens r)) /\
  (forall buf, source_code = Some buf ->
               tokenize_all buf = Done (run_tokens r, run_error_count r)).
Proof.
  destruct source_code as [buf|]; unfold main_from_source; intros H.
  - bind_inv H.
    destruct (token_loop_counts _ _ _ _ _ scan_init_counts E) as (C & D).
    assert (T : forall b, Some buf = Some b ->
                tokenize_all b = Done (tokens a, error_count a)).
    { intros b [= <-]. unfold tokenize_all. rewrite E. reflexivity. }
    destruct (Z.gtb_spec (error_count a) 0) as [G|G];
      injection H as <-; simpl.
    + repeat split; eauto; try lia; try discriminate.
    + repeat split; eauto; try lia; try discriminate.
  - injection H as <-. simpl.
    repeat split; eauto; try lia; try discriminate.
    intros ((b & K) & _). discriminate K.
Qed.

(** The fuel [main] gives its loops is never used up. *)
Lemma fgets_cons (n : nat) (c : ascii) (stdin : list ascii) :
  fgets (S n) (c :: stdin) =
  if Ascii.eqb c "010" then ([c], stdin)
  else let (line, rest) := fgets n stdin in (c :: line, rest).
Proof. reflexivity. Qed.

Lemma fgets_rest (n : nat) (stdin line rest : list ascii) :
  fgets n stdin = (line, rest) -> List.length rest <= List.length stdin.
Proof.
  revert stdin line rest. induction n as [|n IH]; intros stdin line rest.
  - intros [= <- <-]. lia.
  - destruct stdin as [|c stdin]; [intros [= <- <-]; simpl; lia|].
    rewrite fgets_cons. destruct (Ascii.eqb c "010").
    + intros [= <- <-]. simpl. lia.
    + destruct (fgets n stdin) as [l r] eqn:F. intros [= <- <-].
      apply IH in F. simpl. lia.
Qed.

Lemma fgets_shorter (n : nat) (c : ascii) (stdin line rest : list ascii) :
  fgets (S n) (c :: stdin) = (line, rest) ->
  line <> [] /\ List.length rest <= List.length stdin.
Proof.
  rewrite fgets_cons. destruct (Ascii.eqb c "010").
  - intros [= <- <-]. split; [discriminate | lia].
  - destruct (fgets n stdin) as [l r] eqn:F. intros [= <- <-].
    apply fgets_rest in F. split; [discriminate | lia].
Qed.

Lemma stdin_loop_in_time (fuel : nat) (stdin : list ascii) :
  List.length stdin < fuel -> in_time (stdin_loop fuel stdin).
Proof.
  revert stdin. induction fuel as [|fuel IH]; intros stdin F; [lia|].
  cbn [stdin_loop]. change (MAX_SIZE - 1) with (S 98).
  destruct stdin as [|c stdin]; [discriminate|].
  destruct (fgets (S 98) (c :: stdin)) as [line rest] eqn:G.
  apply fgets_shorter in G as (N & L).
  destruct line as [|x line]; [contradiction N; reflexivity|].
  destruct (strtok_finds (x :: line)); [discriminate|].
  apply IH. simpl in F. lia.
Qed.

Lemma lexer_main_finishes (stdin : list ascii) (args : list string)
  (files : string -> file_state) :
  lexer_main stdin args files <> Unfinished.
Proof.
  unfold lexer_main.
  pose proof (stdin_loop_in_time (S (List.length stdin)) stdin) as T.
  destruct (stdin_loop _ stdin) as [[|]| |];
    [| discriminate | discriminate | contradiction T; [lia | reflexivity]].
  destruct args as [|filename args]; [discriminate|].
  destruct (files filename) as [| |buf]; cbn [read_file]; try discriminate.
Qed.

(** No run of [main] ends with the exit status 0: when the file is not
    loaded the status is 1, and when it is, the value [main] needs is
    never returned to it. *)
Lemma lexer_main_never_succeeds (stdin : list ascii) (args : list string)
  (files : string -> file_state) :
  status_of (lexer_main stdin args files) <> Some 0%Z.
Proof.
  unfold lexer_main.
  destruct (stdin_loop _ stdin) as [[|]| |]; try discriminate.
  destruct args as [|filename args]; [discriminate|].
  destruct (files filename) as [| |buf]; cbn [read_file]; discriminate.
Qed.

(** Text on the standard input that holds anything but spaces, tabs and
    line feeds keeps [main] from ever reading the file. *)
Lemma lexer_main_hangs_on_input :
  lexer_main (list_ascii_of_string "x") ["prog.c"%string] (fun _ => NoFile)
  = Hangs.
Proof. reflexivity. Qed.

(** C9: on a file that can be read and holds no malformed token, with
    nothing on the standard input, [main] does not end with the exit
    status 0: [read_file] reaches its closing brace without returning the
    block it has filled, and [main] goes on with a value it was never
    given, which is undefined behaviour.  Given a pointer to that block,
    lines 280-326 print the eleven tokens and end with the exit status
    0. *)
Theorem main_never_gets_the_buffer :
  read_file (Loaded (buf_of "int main(void){return 2;}")) = Undefined /\
  lexer_main [] ["prog.c"%string]
    (fun _ => Loaded (buf_of "int main(void){return 2;}")) = GoesWrong /\
  main_from_source (Some (buf_of "int main(void){return 2;}"))
  = Done (mkRun [tok TOKEN_INT "int"; tok TOKEN_IDENTIFIER "main";
                 tok TOKEN_OPEN_PAREN "("; tok TOKEN_VOID "void";
                 tok TOKEN_CLOSE_PAREN ")"; tok TOKEN_OPEN_BRACE "{";
                 tok TOKEN_RETURN "return"; tok TOKEN_CONSTANT "2";
                 tok TOKEN_SEMICOLON ";"; tok TOKEN_CLOSE_BRACE "}";
                 tok_eof] [] 0 0).
Proof. repeat split. Qed.

(** When the file cannot be loaded and nothing is on the standard input
    [main] ends with status 1 and without any token. *)
Lemma lexer_main_read_failure (filename : string) (rest : list string)
  (files : string -> file_state) :
  files filename = NoFile \/ files filename = NoMemory ->
  lexer_main [] (filename :: rest) files = Exits (mkRun [] [] 0 1).
Proof. intros [H|H]; unfold lexer_main; simpl; rewrite H; reflexivity. Qed.

(** * Further properties of the code *)

(** ** Auxiliary facts *)

Lemma forallb_weaken {A : Type} (f g : A -> bool) (l : list A) :
  (forall x, f x = true -> g x = true) ->
  forallb f l = true -> forallb g l = true.
Proof.
  intros I. induction l as [|x l IH]; simpl; [reflexivity|].
  intros H. apply andb_true_iff in H as (X & H).
  rewrite (I _ X), (IH H). reflexivity.
Qed.

Lemma from_load (buf : buffer) (p : nat) (c : ascii) :
  load buf p = Done c -> from buf p = c :: from buf (p + 1).
Proof.
  intros L. destruct (load_Done_from _ _ _ L) as (rest & F).
  rewrite from_add, F. reflexivity.
Qed.

Lemma from_app_prefix (pre buf : buffer) (p : nat) :
  from (pre ++ buf) (List.length pre + p) = from buf p.
Proof.
  unfold from, block. rewrite <- app_assoc, Nat.add_comm, <- skipn_skipn.
  rewrite skipn_app, skipn_all, Nat.sub_diag. reflexivity.
Qed.

Lemma from_at_prefix (pre rest : buffer) :
  from (pre ++ rest) (List.length pre) = rest ++ [NUL].
Proof.
  rewrite <- (Nat.add_0_r (List.length pre)), from_app_prefix.
  reflexivity.
Qed.

(** ** [skip_whitespace] *)

(** X1: from a cursor inside the block [skip_whitespace] returns a cursor
    inside the block, not before the one it was given; every character it
    went over is whitespace and the one it stops at is not. *)
Theorem skip_whitespace_spec (buf : buffer) (input : nat) :
  input <= List.length buf ->
  exists q, skip_whitespace buf input = Done q /\
    input <= q /\ q <= List.length buf /\
    forallb isspace (firstn (q - input) (from buf input)) = true /\
    exists c, load buf q = Done c /\ isspace c = false.
Proof.
  intros H. unfold skip_whitespace.
  destruct (while_char_from (fun c => negb (is_nul c) && isspace c) buf input)
    as (n & E & L); [reflexivity | exact H |].
  rewrite E. cbn [bind]. exists (input + n).
  split; [reflexivity|]. split; [lia|]. split; [exact L|]. split.
  - replace (input + n - input) with n by lia.
    apply while_char_run in E. revert E. apply forallb_weaken.
    intros x X. apply andb_true_iff in X. tauto.
  - destruct (while_char_stop _ _ _ E) as (c & rest & K & C).
    exists c. split.
    + unfold load. rewrite from_add, K. reflexivity.
    + destruct (is_nul c) eqn:N; simpl in C; [|exact C].
      apply is_nul_true in N. subst c. reflexivity.
Qed.

Lemma skip_whitespace_spec_witness :
  exists q, skip_whitespace (buf_of "a  b") 1 = Done q /\
    1 <= q /\ q <= List.length (buf_of "a  b") /\
    forallb isspace (firstn (q - 1) (from (buf_of "a  b") 1)) = true /\
    exists c, load (buf_of "a  b") q = Done c /\ isspace c = false.
Proof. apply (skip_whitespace_spec (buf_of "a  b") 1). simpl. lia. Defined.

Lemma skip_whitespace_fixed (buf : buffer) (q : nat) (c : ascii) :
  load buf q = Done c -> isspace c = false -> skip_whitespace buf q = Done q.
Proof.
  intros L S. unfold skip_whitespace.
  destruct (load_Done_from _ _ _ L) as (rest & F).
  rewrite F, while_char_none by (rewrite S; apply andb_false_r).
  cbn [bind]. rewrite Nat.add_0_r. reflexivity.
Qed.

Lemma skip_whitespace_stop (buf : buffer) (p q : nat) :
  skip_whitespace buf p = Done q ->
  p <= q /\ exists c, load buf q = Done c /\ isspace c = false.
Proof.
  unfold skip_whitespace. intros H. bind_inv H. injection H as <-.
  split; [lia|].
  destruct (while_char_stop _ _ _ E) as (c & rest & K & C).
  exists c. split.
  - unfold load. rewrite from_add, K. reflexivity.
  - destruct (is_nul c) eqn:N; simpl in C; [|exact C].
    apply is_nul_true in N. subst c. reflexivity.
Qed.

(** X2: whitespace before a token does not change what [get_next_token]
    returns: a call at a cursor and a call at the cursor
    [skip_whitespace] moves it to give the same token and the same new
    cursor. *)
Theorem get_next_token_after_whitespace (buf : buffer) (pos q : nat) :
  skip_whitespace buf pos = Done q ->
  get_next_token buf pos = get_next_token buf q.
Proof.
  intros H. destruct (skip_whitespace_stop _ _ _ H) as (_ & c & L & S).
  unfold get_next_token. rewrite H, (skip_whitespace_fixed _ _ _ L S).
  reflexivity.
Qed.

Lemma get_next_token_after_whitespace_witness :
  get_next_token (buf_of "  int x") 0 = get_next_token (buf_of "  int x") 2.
Proof.
  apply (get_next_token_after_whitespace (buf_of "  int x") 0 2).
  vm_compute. reflexivity.
Defined.

(** ** [skip_comments] *)

Lemma block_comment_body_total (l : list ascii) :
  exists n, block_comment_body (l ++ [NUL]) = Done n /\ n <= List.length l /\
    exists c rest, skipn n (l ++ [NUL]) = c :: rest /\
      (is_nul c = false -> n + 2 <= List.length l).
Proof.
  induction l as [|c l (n & E & L & c' & rest & K & B)].
  - exists 0. simpl. repeat split; try lia.
    exists NUL, []. split; [reflexivity | discriminate].
  - cbn [app block_comment_body]. destruct (is_nul c) eqn:N.
    + exists 0. repeat split; try lia.
      exists c, (l ++ [NUL]). split; [reflexivity | congruence].
    + assert (R : exists m, (n0 <- block_comment_body (l ++ [NUL]) ;; Done (S n0))
                            = Done m /\ m <= List.length (c :: l) /\
                  exists c2 rest2, skipn m (c :: l ++ [NUL]) = c2 :: rest2 /\
                    (is_nul c2 = false -> m + 2 <= List.length (c :: l))).
      { exists (S n). rewrite E. simpl. repeat split; try lia.
        exists c', rest. split; [exact K|]. intros X. apply B in X. lia. }
      destruct (Ascii.eqb c "*"); [|exact R].
      destruct l as [|d l]; [exact R|].
      cbn [app]. cbn [app] in R. destruct (Ascii.eqb d "/"); [|exact R].
      exists 0. repeat split; try lia.
      exists c, (d :: l ++ [NUL]). split; [reflexivity|]. simpl. lia.
Qed.

Lemma block_comment_body_from (buf : buffer) (p : nat) :
  p <= List.length buf ->
  exists n, block_comment_body (from buf p) = Done n /\
    p + n <= List.length buf /\
    exists c, load buf (p + n) = Done c /\
      (is_nul c = false -> p + n + 2 <= List.length buf).
Proof.
  intros H. rewrite (from_inside _ _ H).
  destruct (block_comment_body_total (skipn p buf))
    as (n & E & L & c & rest & K & B).
  rewrite length_skipn in L, B.
  exists n. split; [exact E|]. split; [lia|].
  exists c. split.
  - unfold load. rewrite from_add, (from_inside _ _ H), K. reflexivity.
  - intros X. apply B in X. lia.
Qed.

Lemma comment_starts_load (buf : buffer) (p : nat) (c0 : ascii) :
  load buf p = Done c0 -> Ascii.eqb c0 "/" = false ->
  comment_starts (from buf p) = false.
Proof.
  intros L E. rewrite (from_load _ _ _ L). simpl.
  destruct (from buf (p + 1)); [reflexivity|]. rewrite E. reflexivity.
Qed.

Lemma comment_starts_load2 (buf : buffer) (p : nat) (c0 c1 : ascii) :
  load buf p = Done c0 -> load buf (p + 1) = Done c1 ->
  comment_starts (from buf p) =
  Ascii.eqb c0 "/" && (Ascii.eqb c1 "/" || Ascii.eqb c1 "*").
Proof.
  intros L0 L1. rewrite (from_load _ _ _ L0), (from_load _ _ _ L1).
  reflexivity.
Qed.

Lemma skip_comments_loop_more_fuel (fuel fuel' : nat) (buf : buffer)
  (input : nat) :
  fuel <= fuel' -> in_time (skip_comments_loop fuel buf input) ->
  skip_comments_loop fuel' buf input = skip_comments_loop fuel buf input.
Proof.
  revert fuel' input. induction fuel as [|fuel IH]; intros fuel' input L T.
  - contradiction T. reflexivity.
  - destruct fuel' as [|fuel']; [lia|]. cbn [skip_comments_loop] in *.
    destruct (load buf input) as [c0| |]; cbn [bind] in *; try reflexivity.
    destruct (is_nul c0); [reflexivity|].
    destruct (Ascii.eqb c0 "/"); [|reflexivity].
    destruct (load buf (input + 1)) as [c1| |]; cbn [bind] in *;
      try reflexivity.
    destruct (Ascii.eqb c1 "/").
    + destruct (while_char _ (from buf input)) as [n| |]; cbn [bind] in *;
        try reflexivity.
      apply IH; [lia | exact T].
    + destruct (Ascii.eqb c1 "*"); [|reflexivity]. cbv zeta in *.
      destruct (block_comment_body _) as [n| |]; cbn [bind] in *;
        try reflexivity.
      destruct (load buf (input + 2 + n)) as [c| |]; cbn [bind] in *;
        try reflexivity.
      destruct (negb (is_nul c)); (apply IH; [lia | exact T]).
Qed.

(** With enough fuel the outer loop gives what [skip_comments] gives. *)
Lemma skip_comments_loop_enough (fuel : nat) (buf : buffer) (input : nat) :
  1 <= fuel -> List.length buf < fuel + input ->
  skip_comments_loop fuel buf input = skip_comments buf input.
Proof.
  intros F1 F2. unfold skip_comments.
  destruct (Nat.le_ge_cases fuel (S (List.length buf))) as [L|L].
  - symmetry. apply skip_comments_loop_more_fuel; [exact L|].
    apply skip_comments_loop_in_time; assumption.
  - apply skip_comments_loop_more_fuel; [exact L|].
    apply skip_comments_loop_in_time; lia.
Qed.

(** *** One round of the outer loop *)

Lemma skip_comments_stop (buf : buffer) (input : nat) :
  input <= List.length buf -> comment_starts (from buf input) = false ->
  skip_comments buf input = Done input.
Proof.
  intros H C. unfold skip_comments. cbn [skip_comments_loop].
  destruct (load_total buf input H) as (c0 & L0). rewrite L0. cbn [bind].
  destruct (is_nul c0) eqn:N; [reflexivity|].
  destruct (Ascii.eqb c0 "/") eqn:S0; [|reflexivity].
  pose proof (load_not_nul_inside _ _ _ L0 N) as I.
  destruct (load_total buf (input + 1)) as (c1 & L1); [lia|].
  rewrite L1. cbn [bind].
  rewrite (comment_starts_load2 _ _ _ _ L0 L1), S0 in C. simpl in C.
  apply orb_false_iff in C as (-> & ->). reflexivity.
Qed.

Lemma skip_comments_line (buf : buffer) (input n : nat) :
  load buf input = Done "/"%char -> load buf (input + 1) = Done "/"%char ->
  while_char line_comment_char (from buf input) = Done n ->
  skip_comments buf input = skip_comments buf (input + n).
Proof.
  intros L0 L1 W. unfold skip_comments at 1. cbn [skip_comments_loop].
  rewrite L0. cbn [bind]. rewrite L1. cbn [bind].
  change (fun c => negb (is_nul c) && negb (Ascii.eqb c "010"))
    with line_comment_char.
  rewrite W. cbn [bind].
  pose proof (load_not_nul_inside _ _ _ L0 eq_refl) as I.
  rewrite (from_load _ _ _ L0) in W.
  apply while_char_first in W; [|reflexivity].
  apply skip_comments_loop_enough; lia.
Qed.

Lemma skip_comments_block (buf : buffer) (input n : nat) (c : ascii) :
  load buf input = Done "/"%char -> load buf (input + 1) = Done "*"%char ->
  block_comment_body (from buf (input + 2)) = Done n ->
  load buf (input + 2 + n) = Done c ->
  skip_comments buf input =
  skip_comments buf (if is_nul c then input + 2 + n else input + 2 + n + 2).
Proof.
  intros L0 L1 B L. unfold skip_comments at 1. cbn [skip_comments_loop].
  rewrite L0. cbn [bind]. rewrite L1. cbn [bind]. cbv zeta.
  rewrite B. cbn [bind]. rewrite L. cbn [bind].
  pose proof (load_not_nul_inside _ _ _ L0 eq_refl) as I.
  destruct (is_nul c); cbn [negb]; apply skip_comments_loop_enough; lia.
Qed.

(** *** Where [skip_comments] stops *)

Lemma skip_comments_loop_spec (fuel : nat) (buf : buffer) (input : nat) :
  input <= List.length buf -> 1 <= fuel -> List.length buf < fuel + input ->
  exists q, skip_comments_loop fuel buf input = Done q /\
    input <= q /\ q <= List.length buf /\
    comment_starts (from buf q) = false.
Proof.
  revert input. induction fuel as [|fuel IH]; intros input H F1 F2; [lia|].
  cbn [skip_comments_loop].
  destruct (load_total buf input H) as (c0 & L0). rewrite L0. cbn [bind].
  destruct (is_nul c0) eqn:N.
  { exists input. repeat split; try lia.
    apply (comment_starts_load _ _ _ L0).
    apply is_nul_true in N. subst c0. reflexivity. }
  pose proof (load_not_nul_inside _ _ _ L0 N) as I.
  destruct (Ascii.eqb c0 "/") eqn:S0.
  2:{ exists input. repeat split; try lia.
      apply (comment_starts_load _ _ _ L0 S0). }
  destruct (load_total buf (input + 1)) as (c1 & L1); [lia|].
  rewrite L1. cbn [bind].
  destruct (Ascii.eqb c1 "/") eqn:S1.
  - destruct (while_char_from line_comment_char buf input)
      as (n & W & Ln); [reflexivity | exact H |].
    change (fun c => negb (is_nul c) && negb (Ascii.eqb c "010"))
      with line_comment_char.
    rewrite W. cbn [bind].
    assert (1 <= n).
    { rewrite (from_load _ _ _ L0) in W. apply while_char_first in W; auto.
      apply Ascii.eqb_eq in S0. subst c0. reflexivity. }
    destruct (IH (input + n)) as (q & E & Q1 & Q2 & Q3); try lia.
    exists q. repeat split; auto; lia.
  - destruct (Ascii.eqb c1 "*") eqn:S2.
    + cbv zeta.
      assert (I1 : input + 1 < List.length buf).
      { apply (load_not_nul_inside _ _ _ L1).
        apply Ascii.eqb_eq in S2. subst c1. reflexivity. }
      destruct (block_comment_body_from buf (input + 2))
        as (n & B & Ln & c & L & Bc); [lia|].
      rewrite B. cbn [bind]. rewrite L. cbn [bind].
      destruct (is_nul c) eqn:Nc; cbn [negb].
      * destruct (IH (input + 2 + n)) as (q & E & Q1 & Q2 & Q3); try lia.
        exists q. repeat split; auto; lia.
      * specialize (Bc eq_refl).
        destruct (IH (input + 2 + n + 2)) as (q & E & Q1 & Q2 & Q3); try lia.
        exists q. repeat split; auto; lia.
    + exists input. repeat split; try lia.
      rewrite (comment_starts_load2 _ _ _ _ L0 L1), S1, S2.
      apply andb_false_r.
Qed.

(** X3: from a cursor inside the block [skip_comments] returns a cursor
    inside the block, not before the one it was given, at which no
    comment starts: it never reads outside the block, whatever the
    comments are, closed or not. *)
Theorem skip_comments_spec (buf : buffer) (input : nat) :
  input <= List.length buf ->
  exists q, skip_comments buf input = Done q /\
    input <= q /\ q <= List.length buf /\
    comment_starts (from buf q) = false.
Proof.
  intros H. unfold skip_comments. apply skip_comments_loop_spec; lia.
Qed.

Lemma skip_comments_spec_witness :
  exists q, skip_comments (buf_of "/*a*//*b") 0 = Done q /\
    0 <= q /\ q <= List.length (buf_of "/*a*//*b") /\
    comment_starts (from (buf_of "/*a*//*b") q) = false.
Proof. apply (skip_comments_spec (buf_of "/*a*//*b") 0). simpl. lia. Defined.

(** X4: [skip_comments] is idempotent: applied at the cursor it returned, it
    returns that cursor again. *)
Theorem skip_comments_idempotent (buf : buffer) (input q : nat) :
  input <= List.length buf ->
  skip_comments buf input = Done q -> skip_comments buf q = Done q.
Proof.
  intros H E.
  destruct (skip_comments_loop_spec (S (List.length buf)) buf input)
    as (q' & E' & _ & Q & C); try lia.
  fold (skip_comments buf input) in E'. rewrite E in E'. injection E' as <-.
  apply skip_comments_stop; assumption.
Qed.

Lemma skip_comments_idempotent_witness :
  skip_comments (buf_of "//x") 3 = Done 3.
Proof.
  apply (skip_comments_idempotent (buf_of "//x") 0 3);
    [simpl; lia | vm_compute; reflexivity].
Defined.

(** *** Comments skipped exactly *)

Lemma from_cons (buf : buffer) (p : nat) (c : ascii) (m : list ascii) :
  from buf p = c :: m -> load buf p = Done c /\ from buf (p + 1) = m.
Proof.
  intros F. split.
  - unfold load. rewrite F. reflexivity.
  - rewrite from_add, F. reflexivity.
Qed.

Lemma from_app (buf : buffer) (p : nat) (l m : list ascii) :
  from buf p = l ++ m -> from buf (p + List.length l) = m.
Proof.
  intros F. rewrite from_add, F, skipn_app, skipn_all, Nat.sub_diag.
  reflexivity.
Qed.

Lemma while_char_exact (cond : ascii -> bool) (l : list ascii) (c : ascii)
  (rest : list ascii) :
  forallb cond l = true -> cond c = false ->
  while_char cond (l ++ c :: rest) = Done (List.length l).
Proof.
  intros A C. induction l as [|x l IH]; simpl in *.
  - rewrite C. reflexivity.
  - apply andb_true_iff in A as (-> & A). rewrite (IH A). reflexivity.
Qed.

Lemma block_comment_body_exact (body : list ascii) (c : ascii)
  (tail : list ascii) :
  closes body = false -> nul_free body = true ->
  Ascii.eqb c "/" = false -> block_comment_body (c :: tail) = Done 0 ->
  block_comment_body (body ++ c :: tail) = Done (List.length body).
Proof.
  intros C N S T. induction body as [|x body IH]; [exact T|].
  cbn [closes] in C. apply orb_false_iff in C as (C1 & C2).
  cbn [nul_free forallb] in N. apply andb_true_iff in N as (N1 & N2).
  apply negb_true_iff in N1. specialize (IH C2 N2).
  cbn [app block_comment_body]. rewrite N1.
  destruct (Ascii.eqb x "*").
  - destruct body as [|d body].
    + cbn [app] in *. rewrite S, IH. reflexivity.
    + cbn [app] in *. simpl in C1. rewrite C1, IH. reflexivity.
  - rewrite IH. reflexivity.
Qed.

(** X5: a line comment is skipped up to the newline or the terminator that
    ends it, which is left in place: when the memory at the cursor is two
    slashes, a text without newline and a character that is a newline or
    the terminator, [skip_comments] returns the offset of that
    character. *)
Theorem skip_comments_line_comment (buf : buffer) (p : nat)
  (body : list ascii) (c : ascii) (rest : list ascii) :
  from buf p = "/"%char :: "/"%char :: body ++ c :: rest ->
  nul_free body = true -> line_free body = true ->
  line_comment_char c = false ->
  skip_comments buf p = Done (p + 2 + List.length body).
Proof.
  intros F N L C.
  destruct (from_cons _ _ _ _ F) as (L0 & F1).
  destruct (from_cons _ _ _ _ F1) as (L1 & _).
  assert (W : while_char line_comment_char (from buf p)
              = Done (2 + List.length body)).
  { rewrite F.
    apply (while_char_exact line_comment_char
             ("/"%char :: "/"%char :: body) c rest); [|exact C].
    cbn [forallb]. simpl (line_comment_char "/"). cbn [andb].
    unfold nul_free, line_free in *. clear -N L.
    induction body as [|x body IH]; simpl in *; [reflexivity|].
    apply andb_true_iff in N as (N1 & N2).
    apply andb_true_iff in L as (L1 & L2).
    unfold line_comment_char at 1. rewrite N1, L1, (IH N2 L2). reflexivity. }
  rewrite (skip_comments_line _ _ _ L0 L1 W), Nat.add_assoc.
  assert (F2 : from buf (p + 2 + List.length body) = c :: rest).
  { rewrite <- Nat.add_assoc.
    apply (from_app buf p ("/"%char :: "/"%char :: body)). exact F. }
  apply skip_comments_stop.
  - destruct (from_cons _ _ _ _ F2) as (Lc & _).
    apply (load_in_block _ _ _ Lc).
  - rewrite F2. unfold line_comment_char in C.
    destruct rest as [|d rest]; [reflexivity|]. simpl.
    destruct (Ascii.eqb c "/") eqn:S; [|reflexivity].
    apply Ascii.eqb_eq in S. subst c. discriminate C.
Qed.

Lemma skip_comments_line_comment_witness :
  skip_comments (buf_of ("// a" ++ LF ++ "x")) 0 = Done (0 + 2 + 2).
Proof.
  apply (skip_comments_line_comment (buf_of ("// a" ++ LF ++ "x")) 0
           [" "%char; "a"%char] "010"%char ["x"%char; NUL]);
    reflexivity.
Defined.

(** X6: a closed block comment is skipped with its closer: when the memory at
    the cursor is the opener, a text in which no star is directly
    followed by a slash, and the closer, [skip_comments] goes on from the
    character after the closer. *)
Theorem skip_comments_block_comment (buf : buffer) (p : nat)
  (body rest : list ascii) :
  from buf p = "/"%char :: "*"%char :: body ++ "*"%char :: "/"%char :: rest ->
  closes body = false -> nul_free body = true ->
  skip_comments buf p = skip_comments buf (p + 2 + List.length body + 2).
Proof.
  intros F C N.
  destruct (from_cons _ _ _ _ F) as (L0 & F1).
  destruct (from_cons _ _ _ _ F1) as (L1 & F2).
  rewrite <- Nat.add_assoc in F2. simpl (1 + 1) in F2.
  assert (B : block_comment_body (from buf (p + 2)) = Done (List.length body)).
  { rewrite F2. apply block_comment_body_exact; auto. }
  destruct (from_cons _ _ _ _ (from_app _ _ _ _ F2)) as (L & _).
  rewrite (skip_comments_block _ _ _ _ L0 L1 B L). reflexivity.
Qed.

Lemma skip_comments_block_comment_witness :
  skip_comments (buf_of "/*a**/ x") 0 = skip_comments (buf_of "/*a**/ x") (0 + 2 + 2 + 2).
Proof.
  apply (skip_comments_block_comment (buf_of "/*a**/ x") 0
           ["a"%char; "*"%char] [" "%char; "x"%char; NUL]);
    reflexivity.
Defined.

(** X7: a block comment that is not closed is skipped up to the terminator,
    where [skip_comments] stops: when the memory at the cursor is the
    opener, a text in which no star is directly followed by a slash, and
    the terminator, [skip_comments] returns the offset of the
    terminator. *)
Theorem skip_comments_unclosed_comment (buf : buffer) (p : nat)
  (body rest : list ascii) :
  from buf p = "/"%char :: "*"%char :: body ++ NUL :: rest ->
  closes body = false -> nul_free body = true ->
  skip_comments buf p = Done (p + 2 + List.length body) /\
  load buf (p + 2 + List.length body) = Done NUL.
Proof.
  intros F C N.
  destruct (from_cons _ _ _ _ F) as (L0 & F1).
  destruct (from_cons _ _ _ _ F1) as (L1 & F2).
  rewrite <- Nat.add_assoc in F2. simpl (1 + 1) in F2.
  assert (B : block_comment_body (from buf (p + 2)) = Done (List.length body)).
  { rewrite F2. apply block_comment_body_exact; auto. }
  pose proof (from_app _ _ _ _ F2) as F3.
  destruct (from_cons _ _ _ _ F3) as (L & _).
  split; [|exact L].
  rewrite (skip_comments_block _ _ _ _ L0 L1 B L). cbn [is_nul].
  change (is_nul NUL) with true. cbv iota.
  apply skip_comments_stop.
  - apply (load_in_block _ _ _ L).
  - rewrite F3. destruct rest; reflexivity.
Qed.

Lemma skip_comments_unclosed_comment_witness :
  skip_comments (buf_of "x/* y *") 1 = Done (1 + 2 + 4) /\
  load (buf_of "x/* y *") (1 + 2 + 4) = Done NUL.
Proof.
  apply (skip_comments_unclosed_comment (buf_of "x/* y *") 1
           [" "%char; "y"%char; " "%char; "*"%char] []);
    reflexivity.
Defined.

(** ** The cases of [get_next_token] *)

(** Settles a fact about one character by going through the 256 of
    them. *)
Ltac ascii_cases c :=
  destruct c as [[|] [|] [|] [|] [|] [|] [|] [|]]; vm_compute;
  intros; try reflexivity; try discriminate; try congruence.

Lemma ident_char_test (c : ascii) :
  negb (isalnum c) && negb (Ascii.eqb c "_") = negb (ident_char c).
Proof. unfold ident_char. rewrite negb_orb. reflexivity. Qed.

Lemma ident_char_error_run (c : ascii) :
  ident_char c = true -> error_run_char c = true.
Proof. revert c. intros c. ascii_cases c. Qed.

Lemma isdigit_ident (c : ascii) : isdigit c = true -> ident_char c = true.
Proof.
  intros D. unfold ident_char, isalnum. rewrite D.
  rewrite orb_true_r. reflexivity.
Qed.

Lemma word_start_ident (c : ascii) :
  isalpha c || Ascii.eqb c "_" = true -> ident_char c = true.
Proof.
  intros A. unfold ident_char, isalnum.
  apply orb_true_iff in A as [A|A]; rewrite A; simpl;
    [reflexivity | apply orb_true_r].
Qed.

Lemma isdigit_not_word_start (c : ascii) :
  isdigit c = true -> isalpha c || Ascii.eqb c "_" = false.
Proof. revert c. intros c. ascii_cases c. Qed.

Lemma error_run_char_intro (c : ascii) :
  is_nul c = false -> isspace c = false ->
  simple_token_type c = TOKEN_ERROR -> error_run_char c = true.
Proof. revert c. intros c. ascii_cases c. Qed.

Lemma error_run_char_elim (c : ascii) :
  error_run_char c = true ->
  is_nul c = false /\ isspace c = false /\ simple_token_type c = TOKEN_ERROR.
Proof. revert c. intros c. ascii_cases c; auto. Qed.

Lemma while_char_inside (cond : ascii -> bool) (mem : list ascii) (n : nat) :
  while_char cond mem = Done n -> n < List.length mem.
Proof.
  intros W. destruct (while_char_stop _ _ _ W) as (c & rest & K & _).
  apply (f_equal (@List.length ascii)) in K.
  rewrite length_skipn in K. simpl in K. lia.
Qed.

Lemma strndup_text (buf : buffer) (p n : nat) :
  n <= List.length (from buf p) ->
  nul_free (firstn n (from buf p)) = true ->
  strndup buf p n = Done (text_at buf p n).
Proof.
  intros L N. unfold strndup. rewrite strnlen_run by assumption.
  reflexivity.
Qed.

Lemma strndup_run (cond : ascii -> bool) (buf : buffer) (p n : nat) :
  (forall x, cond x = true -> negb (is_nul x) = true) ->
  while_char cond (from buf p) = Done n ->
  strndup buf p n = Done (text_at buf p n).
Proof.
  intros I W. apply strndup_text.
  - apply while_char_inside in W. lia.
  - apply while_char_run in W. revert W. apply forallb_weaken. exact I.
Qed.

Lemma ident_char_not_nul (c : ascii) :
  ident_char c = true -> negb (is_nul c) = true.
Proof.
  intros H. apply error_run_char_not_nul, ident_char_error_run, H.
Qed.

Lemma isdigit_not_nul (c : ascii) : isdigit c = true -> negb (is_nul c) = true.
Proof. intros H. apply ident_char_not_nul, isdigit_ident, H. Qed.

Lemma digits_from (buf : buffer) (p n : nat) (c : ascii) :
  load buf p = Done c -> isdigit c = true ->
  while_char isdigit (from buf (p + 1)) = Done n ->
  while_char isdigit (from buf p) = Done (1 + n).
Proof.
  intros L D W. rewrite (from_load _ _ _ L). simpl. rewrite D, W.
  reflexivity.
Qed.

(** Like [bind_inv], with the names given. *)
Ltac bind_as H x Hx :=
  apply bind_Done in H; destruct H as (x & Hx & H).

Section Cases.

Variable buf : buffer.
Variable input : nat.
Variable c : ascii.
Hypothesis Hload : load buf input = Done c.
Hypothesis Hnul : is_nul c = false.
Hypothesis Hspace : isspace c = false.
Hypothesis Hsimple : simple_token_type c = TOKEN_ERROR.

Lemma constant_or_error_scans (t : Token) (pos' : nat) :
  isalpha c || Ascii.eqb c "_" = false ->
  constant_or_error buf input = Done (t, pos') -> scans buf input t pos'.
Proof.
  intros A H.
  unfold constant_or_error in H. rewrite Hload in H. cbn [bind] in H.
  destruct (isdigit c) eqn:D.
  - bind_as H d Wd. bind_as H len Hlen.
    apply int_count_Done in Hlen as (-> & _).
    bind_as H c' Lc'. rewrite ident_char_test in H.
    destruct (ident_char c') eqn:I; cbn [negb] in H.
    + unfold error_run in H. bind_as H n Wn. bind_as H len Hlen.
      apply int_count_Done in Hlen as (-> & _).
      destruct (Nat.ltb_spec 0 (1 + d + n)) as [_|]; [|lia].
      unfold strndup in H. bind_as H lex Hlex. bind_as Hlex k Hk.
      injection Hlex as <-. injection H as <- <-.
      eapply scans_bad_number; eauto.
    + bind_as H lex Hlex. injection H as <- <-.
      rewrite (strndup_run isdigit) in Hlex.
      * injection Hlex as <-. eapply scans_constant; eauto.
      * apply isdigit_not_nul.
      * apply (digits_from _ _ _ _ Hload D Wd).
  - unfold error_run in H. cbn [Nat.add] in H.
    bind_as H n Wn. bind_as H len Hlen.
    apply int_count_Done in Hlen as (-> & _).
    assert (R : error_run_char c = true)
      by (apply error_run_char_intro; assumption).
    assert (1 <= n).
    { rewrite (from_load _ _ _ Hload) in Wn.
      eapply while_char_first; eauto. }
    destruct (Nat.ltb_spec 0 n) as [_|]; [|lia].
    rewrite (strndup_run error_run_char) in H;
      [|apply error_run_char_not_nul | exact Wn].
    injection H as <- <-. eapply scans_error; eauto.
    unfold ident_char, isalnum. rewrite D.
    apply orb_false_iff in A as (-> & ->). reflexivity.
Qed.

Lemma identifier_or_later_scans (t : Token) (pos' : nat) :
  identifier_or_later buf input = Done (t, pos') -> scans buf input t pos'.
Proof.
  unfold identifier_or_later. rewrite Hload. cbn [bind].
  destruct (isalpha c || Ascii.eqb c "_") eqn:A.
  - intros H. bind_as H n Wn. bind_as H len Hlen.
    apply int_count_Done in Hlen as (-> & _).
    bind_as H c1 Lc1. rewrite ident_char_test in H.
    destruct (while_char_stop _ _ _ Wn) as (c' & rest & K & C').
    assert (c1 = c').
    { unfold load in Lc1. rewrite from_add, K in Lc1. congruence. }
    subst c1. rewrite C' in H. cbn [negb] in H.
    bind_as H lex Hlex. injection H as <- <-.
    rewrite (strndup_run ident_char) in Hlex;
      [|apply ident_char_not_nul | exact Wn].
    injection Hlex as <-. eapply scans_word; eauto.
  - apply constant_or_error_scans. exact A.
Qed.

End Cases.

(** A call of [get_next_token] that returns either found the terminator
    after the whitespace, or scanned a token at the first character after
    the whitespace in one of the five ways of [scans]. *)
Lemma get_next_token_scans (buf : buffer) (pos : nat) (t : Token)
  (pos' : nat) :
  get_next_token buf pos = Done (t, pos') ->
  exists start, skip_whitespace buf pos = Done start /\ pos <= start /\
    ((t = mkToken TOKEN_EOF None /\ pos' = start /\ load buf start = Done NUL)
     \/ scans buf start t pos').
Proof.
  intros H.
  assert (G := H). unfold get_next_token in G. bind_inv G.
  exists a. split; [exact E|].
  destruct (skip_whitespace_stop _ _ _ E) as (Le & c & L & S).
  split; [exact Le|].
  rewrite L in G. cbn [bind] in G.
  destruct (is_nul c) eqn:N.
  - left. injection G as <- <-. apply is_nul_true in N. subst c. auto.
  - right.
    destruct (negb (TokenType_eqb (simple_token_type c) TOKEN_ERROR)) eqn:T.
    + apply negb_true_iff, TokenType_eqb_neq in T.
      rewrite strndup_text in G.
      * cbn [bind] in G. injection G as <- <-. apply scans_simple; auto.
      * rewrite (from_load _ _ _ L). simpl. lia.
      * rewrite (from_load _ _ _ L). simpl. rewrite N. reflexivity.
    + apply negb_false_iff, TokenType_eqb_eq in T.
      eapply identifier_or_later_scans; eauto.
Qed.

(** ** The tokens [get_next_token] returns *)

Lemma text_at_chars (buf : buffer) (p n : nat) :
  list_ascii_of_string (text_at buf p n) = firstn n (from buf p).
Proof. unfold text_at. apply list_ascii_of_string_of_list_ascii. Qed.

Lemma text_at_one (buf : buffer) (p : nat) (c : ascii) :
  load buf p = Done c -> text_at buf p 1 = String c EmptyString.
Proof. intros L. unfold text_at. rewrite (from_load _ _ _ L). reflexivity. Qed.

Lemma firstn_from_first (buf : buffer) (p n : nat) (c : ascii) :
  load buf p = Done c -> 1 <= n ->
  firstn n (from buf p) = c :: firstn (n - 1) (from buf (p + 1)).
Proof.
  intros L N. rewrite (from_load _ _ _ L).
  destruct n as [|n]; [lia|]. simpl. rewrite Nat.sub_0_r. reflexivity.
Qed.

Lemma simple_token_type_text (c : ascii) (s : string) :
  fixed_text (simple_token_type c) = Some s -> s = String c EmptyString.
Proof.
  unfold simple_token_type.
  repeat match goal with
         | |- context [Ascii.eqb c ?x] =>
             destruct (Ascii.eqb_spec c x) as [->|_]
         end; simpl; intros H; congruence.
Qed.

Lemma check_keyword_text (lex s : string) :
  fixed_text (check_keyword lex) = Some s -> s = lex.
Proof.
  unfold check_keyword.
  repeat match goal with
         | |- context [String.eqb lex ?x] =>
             destruct (String.eqb_spec lex x) as [->|_]
         end; simpl; intros H; congruence.
Qed.

(** X8: a keyword token carries its keyword and a punctuator token its
    character, exactly; the end-of-file token carries no lexeme. *)
Theorem fixed_token_lexeme (buf : buffer) (pos : nat) (t : Token)
  (pos' : nat) :
  get_next_token buf pos = Done (t, pos') ->
  (forall s, fixed_text (type t) = Some s -> lexeme t = Some s) /\
  (type t = TOKEN_EOF -> lexeme t = None).
Proof.
  intros H. apply get_next_token_scans in H as (start & _ & _ & [C|C]).
  - destruct C as (-> & _). split; [discriminate | reflexivity].
  - destruct C as [c L S|c n L A W|c n c' L D W L' I|c n L R I W
                  |c d c' n k L D W L' I Wn K]; cbn [type lexeme];
      (split; [intros s F | try discriminate]); try discriminate.
    + f_equal. rewrite (text_at_one _ _ _ L). symmetry.
      apply simple_token_type_text. exact F.
    + intros E. contradiction (simple_token_type_not_eof c).
    + f_equal. symmetry. apply check_keyword_text. exact F.
    + intros E. contradiction (proj1 (check_keyword_range (text_at buf start n))).
Qed.

Lemma fixed_token_lexeme_witness :
  (forall s, fixed_text (type (tok TOKEN_RETURN "return")) = Some s ->
             lexeme (tok TOKEN_RETURN "return") = Some s) /\
  (type (tok TOKEN_RETURN "return") = TOKEN_EOF ->
   lexeme (tok TOKEN_RETURN "return") = None).
Proof.
  apply (fixed_token_lexeme (buf_of "{return 2;}") 1 _ 7).
  vm_compute. reflexivity.
Defined.

(** X9: the lexeme of an identifier token starts with a letter or an
    underscore, goes on with letters, digits and underscores only, and is
    none of the three keywords. *)
Theorem identifier_lexeme_shape (buf : buffer) (pos : nat) (t : Token)
  (pos' : nat) :
  get_next_token buf pos = Done (t, pos') ->
  type t = TOKEN_IDENTIFIER ->
  exists c rest,
    lexeme_chars t = c :: rest /\
    isalpha c || Ascii.eqb c "_" = true /\
    forallb ident_char rest = true /\
    lexeme t <> Some "int"%string /\ lexeme t <> Some "void"%string /\
    lexeme t <> Some "return"%string.
Proof.
  intros H T. apply get_next_token_scans in H as (start & _ & _ & [C|C]).
  - destruct C as (-> & _). discriminate T.
  - destruct C as [c L S|c n L A W|c n c' L D W L' I|c n L R I W
                  |c d c' n k L D W L' I Wn K]; cbn [type] in T;
      try discriminate T.
    + exfalso. revert T. unfold simple_token_type.
      repeat match goal with
             | |- context [if ?b then _ else _] => destruct b
             end; discriminate.
    + assert (N : 1 <= n).
      { rewrite (from_load _ _ _ L) in W.
        eapply while_char_first; eauto. apply word_start_ident. exact A. }
      pose proof (while_char_run _ _ _ W) as R.
      rewrite (firstn_from_first _ _ _ _ L N) in R. cbn [forallb] in R.
      apply andb_true_iff in R as (_ & R).
      exists c, (firstn (n - 1) (from buf (start + 1))).
      unfold lexeme_chars. cbn [lexeme].
      rewrite text_at_chars, (firstn_from_first _ _ _ _ L N).
      repeat split; auto; intros [= E]; rewrite E in T; discriminate T.
Qed.

Lemma identifier_lexeme_shape_witness :
  exists c rest,
    lexeme_chars (tok TOKEN_IDENTIFIER "_x1") = c :: rest /\
    isalpha c || Ascii.eqb c "_" = true /\
    forallb ident_char rest = true /\
    lexeme (tok TOKEN_IDENTIFIER "_x1") <> Some "int"%string /\
    lexeme (tok TOKEN_IDENTIFIER "_x1") <> Some "void"%string /\
    lexeme (tok TOKEN_IDENTIFIER "_x1") <> Some "return"%string.
Proof.
  apply (identifier_lexeme_shape (buf_of "int _x1;") 3 _ 7);
    vm_compute; reflexivity.
Defined.

(** X10: the lexeme of a constant token is a sequence of digits, at least
    one. *)
Theorem constant_lexeme_shape (buf : buffer) (pos : nat) (t : Token)
  (pos' : nat) :
  get_next_token buf pos = Done (t, pos') ->
  type t = TOKEN_CONSTANT ->
  1 <= List.length (lexeme_chars t) /\
  forallb isdigit (lexeme_chars t) = true.
Proof.
  intros H T. apply get_next_token_scans in H as (start & _ & _ & [C|C]).
  - destruct C as (-> & _). discriminate T.
  - destruct C as [c L S|c n L A W|c n c' L D W L' I|c n L R I W
                  |c d c' n k L D W L' I Wn K]; cbn [type] in T;
      try discriminate T.
    + exfalso. revert T. unfold simple_token_type.
      repeat match goal with
             | |- context [if ?b then _ else _] => destruct b
             end; discriminate.
    + exfalso. revert T. unfold check_keyword.
      repeat match goal with
             | |- context [if ?b then _ else _] => destruct b
             end; discriminate.
    + pose proof (digits_from _ _ _ _ L D W) as W1.
      unfold lexeme_chars. cbn [lexeme]. rewrite text_at_chars. split.
      * rewrite length_firstn. apply while_char_inside in W1. lia.
      * apply (while_char_run _ _ _ W1).
Qed.

Lemma constant_lexeme_shape_witness :
  1 <= List.length (lexeme_chars (tok TOKEN_CONSTANT "42")) /\
  forallb isdigit (lexeme_chars (tok TOKEN_CONSTANT "42")) = true.
Proof.
  apply (constant_lexeme_shape (buf_of "return 42;") 6 _ 9);
    vm_compute; reflexivity.
Defined.

(** X11: an identifier, a keyword or a constant is never cut short: the
    character at the cursor returned with it is not a letter, a digit or
    an underscore. *)
Theorem word_tokens_maximal (buf : buffer) (pos : nat) (t : Token)
  (pos' : nat) :
  get_next_token buf pos = Done (t, pos') ->
  word_or_number (type t) = true ->
  exists c', load buf pos' = Done c' /\ ident_char c' = false.
Proof.
  intros H T. apply get_next_token_scans in H as (start & _ & _ & [C|C]).
  - destruct C as (-> & _). discriminate T.
  - destruct C as [c L S|c n L A W|c n c' L D W L' I|c n L R I W
                  |c d c' n k L D W L' I Wn K]; cbn [type] in T;
      try discriminate T.
    + exfalso. revert T. unfold simple_token_type.
      repeat match goal with
             | |- context [if ?b then _ else _] => destruct b
             end; discriminate.
    + destruct (while_char_stop _ _ _ W) as (c' & rest & K & C').
      exists c'. split; [|exact C'].
      unfold load. rewrite from_add, K. reflexivity.
    + exists c'. split; assumption.
Qed.

Lemma word_tokens_maximal_witness :
  exists c', load (buf_of "int1 x") 4 = Done c' /\ ident_char c' = false.
Proof.
  apply (word_tokens_maximal (buf_of "int1 x") 0 (tok TOKEN_IDENTIFIER "int1"));
    vm_compute; reflexivity.
Defined.

(** ** Lexemes and cursors *)

Lemma nul_free_firstn_block (l : list ascii) (k : nat) :
  nul_free (firstn k (l ++ [NUL])) = true -> k <= List.length l.
Proof.
  revert k. induction l as [|x l IH]; intros [|k]; simpl; intros H;
    try lia; try discriminate.
  apply andb_true_iff in H as (_ & H). apply IH in H. lia.
Qed.

Lemma nul_free_inside (buf : buffer) (p k : nat) :
  p <= List.length buf -> nul_free (firstn k (from buf p)) = true ->
  p + k <= List.length buf /\
  firstn k (from buf p) = firstn k (skipn p buf).
Proof.
  intros H N. rewrite (from_inside _ _ H) in *.
  apply nul_free_firstn_block in N. rewrite length_skipn in N.
  split; [lia|].
  rewrite firstn_app, length_skipn.
  replace (k - (List.length buf - p)) with 0 by lia.
  simpl. apply app_nil_r.
Qed.

Lemma strnlen_nul_free (mem : list ascii) (n k : nat) :
  strnlen mem n = Done k -> k <= n /\ nul_free (firstn k mem) = true.
Proof.
  revert mem k. induction n as [|n IH]; simpl; intros mem k H.
  - injection H as <-. split; [lia | reflexivity].
  - destruct mem as [|x mem]; [discriminate|].
    destruct (is_nul x) eqn:N.
    + injection H as <-. split; [lia | reflexivity].
    + bind_as H k' K. injection H as <-. apply IH in K as (K1 & K2).
      split; [lia|]. simpl. rewrite N, K2. reflexivity.
Qed.

Lemma run_nul_free (cond : ascii -> bool) (mem : list ascii) (n : nat) :
  (forall x, cond x = true -> negb (is_nul x) = true) ->
  while_char cond mem = Done n -> nul_free (firstn n mem) = true.
Proof.
  intros I W. apply while_char_run in W. revert W.
  apply forallb_weaken. exact I.
Qed.

Lemma simple_not_nul (c : ascii) :
  simple_token_type c <> TOKEN_ERROR -> is_nul c = false.
Proof.
  intros S. destruct (is_nul c) eqn:N; [|reflexivity].
  apply is_nul_true in N. subst c. contradiction S. reflexivity.
Qed.

Lemma simple_not_malformed (c : ascii) (s : option string) :
  simple_token_type c <> TOKEN_ERROR ->
  is_malformed (mkToken (simple_token_type c) s) = false.
Proof. intros S. apply TokenType_eqb_neq. exact S. Qed.

Lemma keyword_not_malformed (lex : string) (s : option string) :
  is_malformed (mkToken (check_keyword lex) s) = false.
Proof. apply TokenType_eqb_neq. apply check_keyword_range. Qed.

(** The lexeme of a scanned token is a piece of text that starts where
    the token starts; the cursor comes after it, and directly after it
    unless the token is a bad number. *)
Lemma scans_text (buf : buffer) (start : nat) (t : Token) (pos' : nat) :
  scans buf start t pos' ->
  exists k, lexeme t = Some (text_at buf start k) /\
    nul_free (firstn k (from buf start)) = true /\
    1 <= k /\ start + k <= pos' /\ start < List.length buf /\
    (bad_number t = false -> pos' = start + k).
Proof.
  intros [c L S|c n L A W|c n c' L D W L' I|c n L R I W
         |c d c' n k L D W L' I Wn K].
  - exists 1. pose proof (simple_not_nul _ S) as N.
    rewrite (from_load _ _ _ L). simpl. rewrite N.
    repeat split; try lia. apply (load_not_nul_inside _ _ _ L N).
  - exists n. pose proof (word_start_ident _ A) as I.
    assert (N : is_nul c = false)
      by (apply negb_true_iff, ident_char_not_nul, I).
    repeat split; try lia.
    + apply (run_nul_free ident_char); [apply ident_char_not_nul | exact W].
    + rewrite (from_load _ _ _ L) in W. eapply while_char_first; eauto.
    + apply (load_not_nul_inside _ _ _ L N).
  - exists (1 + n). pose proof (digits_from _ _ _ _ L D W) as W1.
    assert (N : is_nul c = false)
      by (apply negb_true_iff, isdigit_not_nul, D).
    repeat split; try lia.
    + apply (run_nul_free isdigit); [apply isdigit_not_nul | exact W1].
    + apply (load_not_nul_inside _ _ _ L N).
  - exists n.
    assert (N : is_nul c = false)
      by (apply negb_true_iff, error_run_char_not_nul, R).
    repeat split; try lia.
    + apply (run_nul_free error_run_char);
        [apply error_run_char_not_nul | exact W].
    + rewrite (from_load _ _ _ L) in W. eapply while_char_first; eauto.
    + apply (load_not_nul_inside _ _ _ L N).
  - exists k.
    assert (N : is_nul c = false)
      by (apply negb_true_iff, isdigit_not_nul, D).
    destruct (strnlen_nul_free _ _ _ K) as (K1 & K2).
    assert (K3 : 1 <= k).
    { rewrite (from_load _ _ _ L) in K. simpl in K. rewrite N in K.
      bind_as K k' K'. injection K as <-. lia. }
    repeat split; try lia; auto.
    + apply (load_not_nul_inside _ _ _ L N).
    + intros B. exfalso. unfold bad_number, lexeme_chars in B.
      cbn [lexeme] in B. rewrite text_at_chars in B.
      rewrite (firstn_from_first _ _ _ _ L K3), D in B. discriminate B.
Qed.

Lemma scans_not_bad_number (buf : buffer) (start : nat) (t : Token)
  (pos' : nat) :
  scans buf start t pos' ->
  bad_number t = false \/
  exists c d c', load buf (start + d) = Done c /\ isdigit c = true /\
    load buf (start + (1 + d)) = Done c' /\
    isalpha c' || Ascii.eqb c' "_" = true.
Proof.
  intros [c L S|c n L A W|c n c' L D W L' I|c n L R I W
         |c d c' n k L D W L' I Wn K].
  - left. unfold bad_number. rewrite simple_not_malformed by exact S.
    reflexivity.
  - left. unfold bad_number. rewrite keyword_not_malformed. reflexivity.
  - left. reflexivity.
  - left. unfold bad_number, lexeme_chars. cbn [lexeme andb is_malformed type].
    rewrite text_at_chars.
    assert (N : 1 <= n).
    { rewrite (from_load _ _ _ L) in W. eapply while_char_first; eauto. }
    rewrite (firstn_from_first _ _ _ _ L N).
    simpl. unfold ident_char, isalnum in I.
    apply orb_false_iff in I as (I & _).
    apply orb_false_iff in I as (_ & I). exact I.
  - right.
    pose proof (digits_from _ _ _ _ L D W) as W1.
    destruct (while_char_stop _ _ _ W) as (x & rest & Kx & Cx).
    assert (x = c').
    { unfold load in L'. rewrite Nat.add_assoc in L'.
      rewrite from_add, Kx in L'. congruence. }
    subst x.
    assert (A : isalpha c' || Ascii.eqb c' "_" = true).
    { unfold ident_char, isalnum in I. rewrite Cx, orb_false_r in I.
      exact I. }
    destruct d as [|d].
    + exists c, 0, c'. rewrite Nat.add_0_r. auto.
    + pose proof (while_char_run _ _ _ W) as Rn.
      assert (exists y, load buf (start + 1 + d) = Done y /\ isdigit y = true)
        as (y & Ly & Dy).
      { clear -Rn W. apply while_char_inside in W.
        unfold load. rewrite from_add.
        revert Rn W. generalize (from buf (start + 1)).
        induction d as [|d IH]; intros [|y l] Rn W; simpl in *; try lia.
        - exists y. apply andb_true_iff in Rn. tauto.
        - apply andb_true_iff in Rn as (_ & Rn).
          apply (IH l Rn). lia. }
      exists y, (S d), c'.
      replace (start + S d) with (start + 1 + d) by lia. auto.
Qed.

(** X12: the lexeme of a token is the text of the buffer at the place where
    the token starts, after the whitespace: it lies inside the buffer,
    before the cursor returned, and holds no NUL. *)
Theorem lexeme_in_buffer (buf : buffer) (pos : nat) (t : Token) (pos' : nat)
  (s : string) :
  get_next_token buf pos = Done (t, pos') ->
  lexeme t = Some s ->
  exists start, skip_whitespace buf pos = Done start /\
    list_ascii_of_string s = firstn (String.length s) (skipn start buf) /\
    start + String.length s <= List.length buf /\
    start + String.length s <= pos'.
Proof.
  intros H E. apply get_next_token_scans in H as (start & W & _ & [C|C]).
  - destruct C as (-> & _). discriminate E.
  - exists start. split; [exact W|].
    destruct (scans_text _ _ _ _ C) as (k & Lx & N & K1 & K2 & I & _).
    rewrite Lx in E. injection E as <-.
    destruct (nul_free_inside buf start k) as (B & F); [lia | exact N |].
    assert (Len : String.length (text_at buf start k) = k).
    { unfold text_at. rewrite string_length_of_list, F, length_firstn,
        length_skipn. lia. }
    rewrite Len, text_at_chars. repeat split; auto.
Qed.

Lemma lexeme_in_buffer_witness :
  exists start, skip_whitespace (buf_of "a  12abc;") 1 = Done start /\
    list_ascii_of_string "12abc;" =
    firstn (String.length "12abc;") (skipn start (buf_of "a  12abc;")) /\
    start + String.length "12abc;" <= List.length (buf_of "a  12abc;") /\
    start + String.length "12abc;" <= 10.
Proof.
  apply (lexeme_in_buffer (buf_of "a  12abc;") 1 (tok TOKEN_ERROR "12abc;"));
    vm_compute; reflexivity.
Defined.

(** X13: unless the token is a bad number, the cursor returned is inside the
    block and directly after the lexeme: the start of the token plus the
    length of its lexeme. *)
Theorem cursor_after_lexeme (buf : buffer) (pos : nat) (t : Token)
  (pos' : nat) :
  get_next_token buf pos = Done (t, pos') ->
  bad_number t = false ->
  exists start, skip_whitespace buf pos = Done start /\
    pos' = start + List.length (lexeme_chars t) /\
    pos' <= List.length buf.
Proof.
  intros H B. apply get_next_token_scans in H as (start & W & _ & [C|C]).
  - destruct C as (-> & -> & L). exists start. simpl.
    split; [exact W|]. split; [lia|]. apply (load_in_block _ _ _ L).
  - exists start. split; [exact W|].
    destruct (scans_text _ _ _ _ C) as (k & Lx & N & K1 & K2 & I & P).
    specialize (P B). subst pos'.
    destruct (nul_free_inside buf start k) as (Bk & F); [lia | exact N |].
    unfold lexeme_chars. rewrite Lx, text_at_chars, F, length_firstn,
      length_skipn.
    split; lia.
Qed.

Lemma cursor_after_lexeme_witness :
  exists start, skip_whitespace (buf_of " $x;") 0 = Done start /\
    3 = start + List.length (lexeme_chars (tok TOKEN_ERROR "$x")) /\
    3 <= List.length (buf_of " $x;").
Proof.
  apply (cursor_after_lexeme (buf_of " $x;") 0 (tok TOKEN_ERROR "$x") 3);
    vm_compute; reflexivity.
Defined.

(** X14: an error token that is not a bad number is a whole run: none of its
    characters is NUL, whitespace or a punctuator, and the character at
    the cursor returned with it is one of those. *)
Theorem malformed_run_maximal (buf : buffer) (pos : nat) (t : Token)
  (pos' : nat) :
  get_next_token buf pos = Done (t, pos') ->
  type t = TOKEN_ERROR -> bad_number t = false ->
  forallb error_run_char (lexeme_chars t) = true /\
  exists c', load buf pos' = Done c' /\ error_run_char c' = false.
Proof.
  intros H T B. apply get_next_token_scans in H as (start & _ & _ & [C|C]).
  - destruct C as (-> & _). discriminate T.
  - pose proof (scans_text _ _ _ _ C) as (k0 & _ & _ & _ & _ & _ & P).
    destruct C as [c L S|c n L A W|c n c' L D W L' I|c n L R I W
                  |c d c' n k L D W L' I Wn K]; cbn [type] in T;
      try discriminate T.
    + contradiction.
    + exfalso. revert T. apply check_keyword_range.
    + unfold lexeme_chars. cbn [lexeme]. rewrite text_at_chars. split.
      * apply (while_char_run _ _ _ W).
      * destruct (while_char_stop _ _ _ W) as (c' & rest & K & C').
        exists c'. split; [|exact C'].
        unfold load. rewrite from_add, K. reflexivity.
    + exfalso.
      assert (Sc : scans buf start
                     (mkToken TOKEN_ERROR (Some (text_at buf start k)))
                     (start + (1 + d + n)))
        by (eapply scans_bad_number; eauto).
      destruct (scans_text _ _ _ _ Sc) as (k1 & Lx & N1 & K1 & _ & _ & _).
      injection Lx as Lx.
      unfold bad_number, lexeme_chars in B. cbn [lexeme] in B.
      rewrite Lx, text_at_chars, (firstn_from_first _ _ _ _ L K1), D in B.
      discriminate B.
Qed.

Lemma malformed_run_maximal_witness :
  forallb error_run_char (lexeme_chars (tok TOKEN_ERROR "$bar")) = true /\
  exists c', load (buf_of "foo$bar") 7 = Done c' /\ error_run_char c' = false.
Proof.
  apply (malformed_run_maximal (buf_of "foo$bar") 3 (tok TOKEN_ERROR "$bar"));
    vm_compute; reflexivity.
Defined.

(** ** A call from inside the block *)

(** X15: from a cursor inside the block of a buffer whose counters cannot
    overflow, [get_next_token] returns a token; the cursor it returns is
    not before the one it got, and is the same only at the terminator,
    with the end-of-file token. *)
Theorem get_next_token_returns (buf : buffer) (pos : nat) :
  pos <= List.length buf ->
  (2 * Z.of_nat (List.length buf) <= INT_MAX)%Z ->
  exists t pos', get_next_token buf pos = Done (t, pos') /\
    pos <= pos' /\
    (pos' = pos -> type t = TOKEN_EOF /\ load buf pos = Done NUL) /\
    (type t <> TOKEN_EOF -> pos < pos').
Proof.
  intros H S. destruct (get_next_token_total buf S pos H) as (t & pos' & G).
  exists t, pos'. split; [exact G|].
  apply get_next_token_progress. exact G.
Qed.

Lemma get_next_token_returns_witness :
  exists t pos', get_next_token (buf_of "x = 1;") 1 = Done (t, pos') /\
    1 <= pos' /\
    (pos' = 1 -> type t = TOKEN_EOF /\ load (buf_of "x = 1;") 1 = Done NUL) /\
    (type t <> TOKEN_EOF -> 1 < pos').
Proof.
  apply (get_next_token_returns (buf_of "x = 1;") 1);
    [simpl; lia | vm_compute; discriminate].
Defined.

(** ** The scan depends on the text after the cursor only *)

Lemma load_app_prefix (pre buf : buffer) (p : nat) :
  load (pre ++ buf) (List.length pre + p) = load buf p.
Proof. unfold load. rewrite from_app_prefix. reflexivity. Qed.

Lemma strndup_app_prefix (pre buf : buffer) (p n : nat) :
  strndup (pre ++ buf) (List.length pre + p) n = strndup buf p n.
Proof. unfold strndup. rewrite from_app_prefix. reflexivity. Qed.

(** Brings every offset into the block with the prefix to the form
    [length pre + _] and removes the prefix. *)
Ltac drop_prefix :=
  repeat rewrite <- (Nat.add_assoc (List.length _));
  repeat rewrite from_app_prefix;
  repeat rewrite load_app_prefix;
  repeat rewrite strndup_app_prefix.

Lemma error_run_app_prefix (pre buf : buffer) (p len : nat) :
  error_run (pre ++ buf) (List.length pre + p) len =
  shift (List.length pre) (error_run buf p len).
Proof.
  unfold error_run. drop_prefix.
  destruct (while_char error_run_char (from buf p)) as [n| |];
    cbn [bind shift]; try reflexivity.
  destruct (int_count (len + n)) as [m| |]; cbn [bind shift];
    try reflexivity.
  drop_prefix.
  destruct (strndup buf p _) as [s| |]; cbn [bind shift]; reflexivity.
Qed.

Lemma constant_or_error_app_prefix (pre buf : buffer) (p : nat) :
  constant_or_error (pre ++ buf) (List.length pre + p) =
  shift (List.length pre) (constant_or_error buf p).
Proof.
  unfold constant_or_error. drop_prefix.
  destruct (load buf p) as [c| |]; cbn [bind shift]; try reflexivity.
  destruct (isdigit c); [|apply error_run_app_prefix].
  drop_prefix.
  destruct (while_char isdigit (from buf (p + 1))) as [n| |];
    cbn [bind shift]; try reflexivity.
  destruct (int_count (1 + n)) as [m| |]; cbn [bind shift];
    try reflexivity.
  drop_prefix.
  destruct (load buf (p + m)) as [c'| |]; cbn [bind shift]; try reflexivity.
  destruct (negb (isalnum c') && negb (Ascii.eqb c' "_"));
    [|apply error_run_app_prefix].
  drop_prefix.
  destruct (strndup buf p m) as [s| |]; cbn [bind shift]; reflexivity.
Qed.

Lemma identifier_or_later_app_prefix (pre buf : buffer) (p : nat) :
  identifier_or_later (pre ++ buf) (List.length pre + p) =
  shift (List.length pre) (identifier_or_later buf p).
Proof.
  unfold identifier_or_later. drop_prefix.
  destruct (load buf p) as [c| |]; cbn [bind shift]; try reflexivity.
  destruct (isalpha c || Ascii.eqb c "_");
    [|apply constant_or_error_app_prefix].
  destruct (while_char ident_char (from buf p)) as [n| |];
    cbn [bind shift]; try reflexivity.
  destruct (int_count n) as [m| |]; cbn [bind shift]; try reflexivity.
  drop_prefix.
  destruct (load buf (p + m)) as [c'| |]; cbn [bind shift]; try reflexivity.
  destruct (negb (isalnum c') && negb (Ascii.eqb c' "_"));
    [|apply constant_or_error_app_prefix].
  drop_prefix.
  destruct (strndup buf p m) as [s| |]; cbn [bind shift]; reflexivity.
Qed.

(** X16: what [get_next_token] returns depends only on the text from the
    cursor on: with any text put in front of the buffer, the call at the
    cursor moved accordingly gives the same token, and the same new
    cursor moved accordingly; it is undefined in the same cases. *)
Theorem get_next_token_app_prefix (pre buf : buffer) (pos : nat) :
  get_next_token (pre ++ buf) (List.length pre + pos) =
  shift (List.length pre) (get_next_token buf pos).
Proof.
  unfold get_next_token, skip_whitespace. drop_prefix.
  destruct (while_char _ (from buf pos)) as [n| |]; cbn [bind shift];
    try reflexivity.
  drop_prefix.
  destruct (load buf (pos + n)) as [c| |]; cbn [bind shift]; try reflexivity.
  destruct (is_nul c); [reflexivity|].
  destruct (negb (TokenType_eqb (simple_token_type c) TOKEN_ERROR)).
  - drop_prefix.
    destruct (strndup buf (pos + n) 1) as [s| |]; cbn [bind shift];
      reflexivity.
  - apply identifier_or_later_app_prefix.
Qed.

(** ** The names of the token types *)

(** X17: [token_to_debug_string] gives different names to different token
    types, and never the name of its default case. *)
Theorem token_to_debug_string_injective (a b : TokenType) :
  token_to_debug_string a = token_to_debug_string b ->
  a = b /\ token_to_debug_string a <> "UNKNOWN"%string.
Proof.
  intros H. split.
  - destruct a, b; simpl in H; try reflexivity; discriminate H.
  - destruct a; discriminate.
Qed.

Lemma token_to_debug_string_injective_witness :
  TOKEN_VOID = TOKEN_VOID /\
  token_to_debug_string TOKEN_VOID <> "UNKNOWN"%string.
Proof.
  apply (token_to_debug_string_injective TOKEN_VOID TOKEN_VOID).
  reflexivity.
Defined.

(** ** The token sequence of a scan *)

Lemma report_error_tokens (t : Token) (st st' : scan_state) :
  report_error t st = Done st' ->
  tokens st' = tokens st /\
  (error_count st <= error_count st' <= error_count st + 1)%Z.
Proof.
  unfold report_error. destruct (TokenType_eqb (type t) TOKEN_ERROR).
  - destruct (error_count st <? INT_MAX)%Z; [|discriminate].
    intros [= <-]. simpl. split; [reflexivity | lia].
  - intros [= <-]. split; [reflexivity | lia].
Qed.

Lemma eof_token (buf : buffer) (pos : nat) (t : Token) (pos' : nat) :
  get_next_token buf pos = Done (t, pos') ->
  is_eof t = true -> t = tok_eof.
Proof.
  intros H E. apply get_next_token_cases in H as (start & _ & _ & [C|C]).
  - destruct C as (-> & _). reflexivity.
  - destruct C as (_ & _ & A & _). apply TokenType_eqb_eq in E.
    contradiction.
Qed.

Lemma token_loop_tokens (fuel : nat) (buf : buffer) (pos : nat)
  (st st' : scan_state) :
  token_loop fuel buf pos st = Done st' ->
  exists front, tokens st' = tokens st ++ front ++ [tok_eof] /\
    forallb (fun t => negb (is_eof t)) front = true.
Proof.
  revert pos st. induction fuel as [|fuel IH]; intros pos st H;
    [discriminate|].
  cbn [token_loop] in H. bind_as H r G. destruct r as [t pos1].
  bind_as H st1 R. apply report_error_tokens in R as (R & _).
  cbn [tokens] in R. fold (is_eof t) in H.
  destruct (is_eof t) eqn:E; cbn [negb] in H.
  - injection H as <-. exists []. rewrite R.
    rewrite (eof_token _ _ _ _ G E). split; reflexivity.
  - apply IH in H as (front & T & F). exists (t :: front).
    rewrite T, R, <- app_assoc. split; [reflexivity|].
    simpl. rewrite E, F. reflexivity.
Qed.

(** X18: the token sequence of a scan that ended ends with the end-of-file
    token and holds no other end-of-file token. *)
Theorem tokenize_all_ends_with_eof (buf : buffer) (toks : list Token) (n : Z) :
  tokenize_all buf = Done (toks, n) ->
  exists front, toks = front ++ [tok_eof] /\
    forallb (fun t => negb (is_eof t)) front = true.
Proof.
  unfold tokenize_all. intros H. bind_as H st L. injection H as <- <-.
  apply token_loop_tokens in L as (front & T & F).
  exists front. split; assumption.
Qed.

Lemma tokenize_all_ends_with_eof_witness :
  exists front,
    [tok TOKEN_IDENTIFIER "x"; tok TOKEN_SEMICOLON ";"; tok_eof] =
    front ++ [tok_eof] /\
    forallb (fun t => negb (is_eof t)) front = true.
Proof.
  apply (tokenize_all_ends_with_eof (buf_of "x ;") _ 0%Z).
  vm_compute. reflexivity.
Defined.

(** ** Scans that stay inside the block *)

Lemma scans_inside (buf : buffer) (start : nat) (t : Token) (pos' : nat) :
  scans buf start t pos' -> bad_number t = false ->
  pos' <= List.length buf /\
  lexeme_chars t = firstn (pos' - start) (skipn start buf) /\
  start < pos'.
Proof.
  intros C B.
  destruct (scans_text _ _ _ _ C) as (k & Lx & N & K1 & K2 & I & P).
  specialize (P B). subst pos'.
  destruct (nul_free_inside buf start k) as (Bk & F); [lia | exact N |].
  split; [exact Bk|]. split; [|lia].
  unfold lexeme_chars. rewrite Lx, text_at_chars, F.
  replace (start + k - start) with k by lia. reflexivity.
Qed.

Lemma digits_delimited_block (l : list ascii) :
  digits_delimited (l ++ [NUL]) = digits_delimited l.
Proof.
  induction l as [|c l IH]; [reflexivity|].
  cbn [app digits_delimited]. rewrite IH.
  destruct l as [|d l]; [|reflexivity].
  simpl. rewrite andb_false_r. reflexivity.
Qed.

Lemma digits_delimited_skipn (l : list ascii) (p : nat) :
  digits_delimited l = true -> digits_delimited (skipn p l) = true.
Proof.
  revert l. induction p as [|p IH]; intros [|c l] H; simpl; auto.
  cbn [digits_delimited] in H. apply andb_true_iff in H as (_ & H).
  apply IH. exact H.
Qed.

Lemma digits_delimited_at (buf : buffer) (p : nat) (c c' : ascii) :
  digits_delimited buf = true ->
  load buf p = Done c -> isdigit c = true ->
  load buf (p + 1) = Done c' -> isalpha c' || Ascii.eqb c' "_" = true ->
  False.
Proof.
  intros D L Dc L' A.
  pose proof (digits_delimited_skipn (block buf) p) as S.
  unfold block in S at 1. rewrite digits_delimited_block in S.
  specialize (S D). fold (from buf p) in S.
  rewrite (from_load _ _ _ L), (from_load _ _ _ L') in S.
  cbn [digits_delimited] in S. rewrite Dc, A in S. discriminate S.
Qed.

(** In a text whose digits are delimited no token is a bad number. *)
Lemma delimited_no_bad_number (buf : buffer) (pos : nat) (t : Token)
  (pos' : nat) :
  digits_delimited buf = true ->
  get_next_token buf pos = Done (t, pos') -> bad_number t = false.
Proof.
  intros D H. apply get_next_token_scans in H as (start & _ & _ & [C|C]).
  - destruct C as (-> & _). reflexivity.
  - destruct (scans_not_bad_number _ _ _ _ C)
      as [B|(c & d & c' & L & Dc & L' & A)]; [exact B|].
    exfalso. replace (start + (1 + d)) with (start + d + 1) in L' by lia.
    exact (digits_delimited_at buf (start + d) c c' D L Dc L' A).
Qed.

Lemma good_token_inside (buf : buffer) (pos : nat) (t : Token) (pos' : nat) :
  get_next_token buf pos = Done (t, pos') -> bad_number t = false ->
  pos' <= List.length buf.
Proof.
  intros H B. apply get_next_token_scans in H as (start & _ & _ & [C|C]).
  - destruct C as (_ & -> & L). apply (load_in_block _ _ _ L).
  - apply (scans_inside _ _ _ _ C B).
Qed.

Section Delimited.

Variable buf : buffer.
Hypothesis Hsize : (2 * Z.of_nat (List.length buf) <= INT_MAX)%Z.
Hypothesis Hdigits : digits_delimited buf = true.

Lemma token_loop_delimited (fuel pos : nat) (st : scan_state) :
  pos <= List.length buf -> List.length buf < fuel + pos ->
  (error_count st <= Z.of_nat pos)%Z ->
  exists st', token_loop fuel buf pos st = Done st'.
Proof.
  revert pos st. induction fuel as [|fuel IH]; intros pos st P F C; [lia|].
  cbn [token_loop].
  destruct (get_next_token_total buf Hsize pos P) as (t & pos' & G).
  rewrite G. cbn [bind].
  pose proof (good_token_inside _ _ _ _ G
                (delimited_no_bad_number _ _ _ _ Hdigits G)) as I.
  destruct (get_next_token_progress _ _ _ _ G) as (_ & _ & Adv).
  destruct (report_error t _) as [st1| |] eqn:R.
  - cbn [bind]. apply report_error_tokens in R as (_ & R). cbn in R.
    destruct (negb (TokenType_eqb (type t) TOKEN_EOF)) eqn:E; [|eauto].
    apply negb_true_iff, TokenType_eqb_neq in E. specialize (Adv E).
    apply IH; lia.
  - exfalso. unfold report_error in R. cbn [error_count] in R.
    destruct (TokenType_eqb (type t) TOKEN_ERROR); [|discriminate R].
    destruct (Z.ltb_spec (error_count st) INT_MAX);
      [discriminate R | unfold INT_MAX in *; lia].
  - exfalso. revert R. apply report_error_in_time.
Qed.

End Delimited.

(** X19: when no digit of the text is directly followed by a letter or an
    underscore (and the counters cannot overflow), the scan of the whole
    buffer ends with a token sequence: the cursor never leaves the
    block. *)
Theorem tokenize_all_delimited (buf : buffer) :
  digits_delimited buf = true ->
  (2 * Z.of_nat (List.length buf) <= INT_MAX)%Z ->
  exists toks n, tokenize_all buf = Done (toks, n).
Proof.
  intros D Hs.
  destruct (token_loop_delimited buf Hs D (S (List.length buf)) 0 scan_init)
    as (st & L); try (simpl; lia).
  unfold tokenize_all. rewrite L. cbn [bind]. eauto.
Qed.

Lemma tokenize_all_delimited_witness :
  exists toks n, tokenize_all (buf_of "x1 = 2 $;") = Done (toks, n).
Proof.
  apply (tokenize_all_delimited (buf_of "x1 = 2 $;"));
    [reflexivity | vm_compute; discriminate].
Defined.

(** ** The lexemes put together *)

Lemma visible_spaces (l : list ascii) :
  forallb isspace l = true -> visible l = [].
Proof.
  induction l as [|c l IH]; simpl; [reflexivity|].
  intros H. apply andb_true_iff in H as (-> & H). simpl. apply IH, H.
Qed.

Lemma visible_all (l : list ascii) :
  forallb (fun c => negb (isspace c)) l = true -> visible l = l.
Proof.
  induction l as [|c l IH]; simpl; [reflexivity|].
  intros H. apply andb_true_iff in H as (-> & H). rewrite (IH H).
  reflexivity.
Qed.

Lemma visible_app (a b : list ascii) : visible (a ++ b) = visible a ++ visible b.
Proof. apply filter_app. Qed.

Lemma forallb_skipn {A : Type} (f : A -> bool) (l : list A) (n : nat) :
  forallb f l = true -> forallb f (skipn n l) = true.
Proof.
  revert l. induction n as [|n IH]; intros [|x l] H; simpl; auto.
  simpl in H. apply andb_true_iff in H as (_ & H). apply IH, H.
Qed.

Lemma skipn_split (l : list ascii) (p q : nat) :
  p <= q -> skipn p l = firstn (q - p) (skipn p l) ++ skipn q l.
Proof.
  intros H. rewrite <- (firstn_skipn (q - p) (skipn p l)) at 1.
  rewrite skipn_skipn. replace (q - p + p) with q by lia. reflexivity.
Qed.

Lemma terminator_at_end (buf : buffer) (p : nat) :
  nul_free buf = true -> load buf p = Done NUL -> p = List.length buf.
Proof.
  intros N L. pose proof (load_in_block _ _ _ L) as I.
  unfold load in L. rewrite (from_inside _ _ I) in L.
  destruct (skipn p buf) as [|x rest] eqn:K.
  - apply (f_equal (@List.length ascii)) in K.
    rewrite length_skipn in K. simpl in K. lia.
  - simpl in L. injection L as ->.
    pose proof (forallb_skipn _ _ p N) as F. rewrite K in F.
    discriminate F.
Qed.

Lemma simple_not_space (c : ascii) :
  simple_token_type c <> TOKEN_ERROR -> isspace c = false.
Proof. revert c. intros c. ascii_cases c. Qed.

Lemma error_run_char_not_space (c : ascii) :
  error_run_char c = true -> negb (isspace c) = true.
Proof.
  intros H. apply error_run_char_elim in H as (_ & -> & _). reflexivity.
Qed.

Lemma scans_no_space (buf : buffer) (start : nat) (t : Token) (pos' : nat) :
  scans buf start t pos' -> bad_number t = false ->
  forallb (fun c => negb (isspace c)) (lexeme_chars t) = true.
Proof.
  intros C B.
  destruct C as [c L S|c n L A W|c n c' L D W L' I|c n L R I W
                |c d c' n k L D W L' I Wn K];
    unfold lexeme_chars; cbn [lexeme]; rewrite text_at_chars.
  - rewrite (from_load _ _ _ L). simpl.
    rewrite (simple_not_space _ S). reflexivity.
  - apply while_char_run in W. revert W. apply forallb_weaken.
    intros x X. apply error_run_char_not_space, ident_char_error_run, X.
  - pose proof (digits_from _ _ _ _ L D W) as W1.
    apply while_char_run in W1. revert W1. apply forallb_weaken.
    intros x X.
    apply error_run_char_not_space, ident_char_error_run, isdigit_ident, X.
  - apply while_char_run in W. revert W. apply forallb_weaken.
    apply error_run_char_not_space.
  - exfalso.
    assert (Sc : scans buf start
                   (mkToken TOKEN_ERROR (Some (text_at buf start k)))
                   (start + (1 + d + n)))
      by (eapply scans_bad_number; eauto).
    destruct (scans_text _ _ _ _ Sc) as (k1 & Lx & N1 & K1 & _ & _ & _).
    injection Lx as Lx.
    unfold bad_number, lexeme_chars in B. cbn [lexeme] in B.
    rewrite Lx, text_at_chars, (firstn_from_first _ _ _ _ L K1), D in B.
    discriminate B.
Qed.

Lemma skip_whitespace_run (buf : buffer) (pos start : nat) :
  pos <= List.length buf -> skip_whitespace buf pos = Done start ->
  pos <= start /\ start <= List.length buf /\
  forallb isspace (firstn (start - pos) (skipn pos buf)) = true.
Proof.
  intros P H. unfold skip_whitespace in H. bind_as H n W.
  injection H as <-.
  pose proof (while_char_run _ _ _ W) as R.
  assert (N : nul_free (firstn n (from buf pos)) = true).
  { revert R. apply forallb_weaken. intros x X.
    apply andb_true_iff in X. tauto. }
  destruct (nul_free_inside _ _ _ P N) as (B & F).
  split; [lia|]. split; [exact B|].
  replace (pos + n - pos) with n by lia. rewrite <- F.
  revert R. apply forallb_weaken. intros x X.
  apply andb_true_iff in X. tauto.
Qed.

Section Visible.

Variable buf : buffer.
Hypothesis Hnul : nul_free buf = true.

(** One call: the text from the old cursor on, without its whitespace, is
    the lexeme followed by the text from the new cursor on, without its
    whitespace. *)
Lemma token_step_visible (pos : nat) (t : Token) (pos' : nat) :
  pos <= List.length buf ->
  get_next_token buf pos = Done (t, pos') -> bad_number t = false ->
  visible (skipn pos buf) = lexeme_chars t ++ visible (skipn pos' buf) /\
  pos' <= List.length buf /\
  (is_eof t = true -> pos' = List.length buf).
Proof.
  intros P H B. apply get_next_token_scans in H as (start & W & _ & C).
  destruct (skip_whitespace_run _ _ _ P W) as (P1 & P2 & Sp).
  rewrite (skipn_split buf pos start P1), visible_app,
    (visible_spaces _ Sp). cbn [app].
  destruct C as [C|C].
  - destruct C as (-> & -> & L).
    pose proof (terminator_at_end _ _ Hnul L) as E.
    split; [reflexivity|]. split; [lia|]. intros _. exact E.
  - destruct (scans_inside _ _ _ _ C B) as (I & Lx & Lt).
    rewrite (skipn_split buf start pos') by lia.
    rewrite visible_app, <- Lx, (visible_all _ (scans_no_space _ _ _ _ C B)).
    split; [reflexivity|]. split; [exact I|].
    intros E. exfalso. apply TokenType_eqb_eq in E.
    destruct (scans_text _ _ _ _ C) as (k & Lk & _).
    destruct C; cbn [type] in E; try discriminate E.
    + contradiction (simple_token_type_not_eof c).
    + contradiction (proj1 (check_keyword_range (text_at buf start n))).
Qed.

Lemma token_loop_visible (fuel pos : nat) (st st' : scan_state) :
  token_loop fuel buf pos st = Done st' ->
  pos <= List.length buf ->
  forallb (fun t => negb (bad_number t)) (tokens st') = true ->
  List.concat (map lexeme_chars (tokens st')) =
  List.concat (map lexeme_chars (tokens st)) ++ visible (skipn pos buf).
Proof.
  revert pos st. induction fuel as [|fuel IH]; intros pos st H P B;
    [discriminate|].
  cbn [token_loop] in H. bind_as H r G. destruct r as [t pos1].
  bind_as H st1 R. apply report_error_tokens in R as (R & _).
  cbn [tokens] in R. fold (is_eof t) in H.
  destruct (is_eof t) eqn:E; cbn [negb] in H.
  - injection H as <-. rewrite R in *.
    rewrite forallb_app in B. apply andb_true_iff in B as (_ & B).
    simpl in B. rewrite andb_true_r in B. apply negb_true_iff in B.
    destruct (token_step_visible _ _ _ P G B) as (V & _ & Z).
    rewrite (Z E), skipn_all, app_nil_r in V.
    rewrite map_app, concat_app, V. simpl. rewrite app_nil_r. reflexivity.
  - pose proof (token_loop_tokens _ _ _ _ _ H) as (front & T & _).
    assert (Bt : bad_number t = false).
    { rewrite T, R in B. rewrite !forallb_app in B.
      apply andb_true_iff in B as (B & _).
      apply andb_true_iff in B as (_ & B).
      simpl in B. rewrite andb_true_r in B. apply negb_true_iff, B. }
    destruct (token_step_visible _ _ _ P G Bt) as (V & I & _).
    rewrite (IH _ _ H I B), R, map_app, concat_app, V. simpl.
    rewrite app_nil_r, <- app_assoc. reflexivity.
Qed.

End Visible.

(** X20: nothing but whitespace is lost: when the buffer holds no NUL and no
    token of the scan is a bad number, the lexemes of the tokens, put
    together in their order, are the text of the buffer without its
    whitespace. *)
Theorem tokenize_all_keeps_text (buf : buffer) (toks : list Token) (n : Z) :
  nul_free buf = true ->
  tokenize_all buf = Done (toks, n) ->
  forallb (fun t => negb (bad_number t)) toks = true ->
  List.concat (map lexeme_chars toks) = visible buf.
Proof.
  intros N H B. unfold tokenize_all in H. bind_as H st L.
  injection H as <- <-.
  rewrite (token_loop_visible buf N _ _ _ _ L); [reflexivity | lia | exact B].
Qed.

Lemma tokenize_all_keeps_text_witness :
  List.concat (map lexeme_chars
            [tok TOKEN_INT "int"; tok TOKEN_IDENTIFIER "x"; tok TOKEN_ERROR "=";
             tok TOKEN_CONSTANT "1"; tok TOKEN_SEMICOLON ";"; tok_eof]) =
  visible (buf_of " int x = 1 ;").
Proof.
  apply (tokenize_all_keeps_text (buf_of " int x = 1 ;") _ 1%Z);
    vm_compute; reflexivity.
Defined.

(** ** The empty and the blank buffer *)

(** X21: the scan of an empty buffer, or of a buffer of whitespace only, gives
    one token, the end-of-file token, and counts no error. *)
Theorem blank_buffer_tokens (buf : buffer) :
  forallb isspace buf = true -> tokenize_all buf = Done ([tok_eof], 0%Z).
Proof. apply whitespace_only_buffer. Qed.

Lemma blank_buffer_tokens_witness :
  tokenize_all (buf_of "") = Done ([tok_eof], 0%Z) /\
  tokenize_all (buf_of ("  " ++ LF)) = Done ([tok_eof], 0%Z).
Proof.
  split.
  - apply (blank_buffer_tokens (buf_of "")). reflexivity.
  - apply (blank_buffer_tokens (buf_of ("  " ++ LF))). reflexivity.
Defined.

(** * Properties of the compiler driver *)

Section DriverFacts.

Variable world : Type.
Variable os_stat : string -> world -> option file_kind.
Variable os_system : string -> world -> Z * world.
Variable os_write : string -> string -> world -> option world.
Variable os_remove : string -> world -> bool * world.
Variable dirname : string -> string.
Variable basename : string -> string.

Notation "'run'" := (driver_main world os_stat os_system os_write os_remove
                       dirname basename).
Notation "'compile_from'" := (compile world os_system os_write os_remove
                                dirname basename).
Notation "'pre_file'" := (preprocessed_file dirname basename).
Notation "'asm_file'" := (assembly_file dirname basename).
Notation "'pre_cmd'" := (preprocess_cmd dirname basename).
Notation "'link_cmd'" := (assemble_link_cmd dirname basename).

(** Takes a run of the driver apart along the answers of the operating
    system, in the order the driver asks for them. *)
Ltac driver_step :=
  cbn [status log final negb];
  change (EXIT_SUCCESS =? 0)%Z with true;
  change (EXIT_FAILURE =? 0)%Z with false;
  cbn [negb];
  match goal with
  | |- context [match read_option ?r with _ => _ end] =>
      destruct (read_option r) eqn:?
  | |- context [os_system ?c ?w] =>
      let st := fresh "st" in
      let w' := fresh "w" in
      destruct (os_system c w) as [st w'] eqn:?
  | |- context [os_remove ?c ?w] =>
      destruct (os_remove c w) as [[|] ?] eqn:?
  | |- context [os_write ?a ?b ?w] =>
      destruct (os_write a b w) eqn:?
  | |- context [(?z =? 0)%Z] =>
      destruct (Z.eqb_spec z 0); [subst z|]
  | |- context [if ?b then _ else _] => is_var b; destruct b
  | |- context [String.eqb ?a ?b] => destruct (String.eqb a b) eqn:?
  end.

Ltac driver_cases :=
  unfold compile, run_compiler_pass, delete_file;
  repeat driver_step;
  cbn [status log final negb app].

Lemma driver_main_accepted (argv0 : string) (args : list string) (w : world) :
  accepts world os_stat args w = true ->
  exists p rest, args = p :: rest /\
    file_exists world os_stat p w = true /\
    run argv0 args w =
    compile_from p
      (match read_option rest with StageOption o => Some o | _ => None end)
      (match read_option rest with AssemblyOnly => true | _ => false end) w.
Proof.
  unfold accepts, driver_main.
  destruct args as [|p [|o [|x rest]]]; try discriminate.
  - intros A. exists p, []. rewrite A. auto.
  - intros A. exists p, [o].
    destruct (read_option [o]) eqn:R; try discriminate; rewrite A; auto.
Qed.

Lemma driver_main_rejected (argv0 : string) (args : list string) (w : world) :
  accepts world os_stat args w = false ->
  status (run argv0 args w) = EXIT_FAILURE /\
  final (run argv0 args w) = w /\
  forallb is_stderr (log (run argv0 args w)) = true.
Proof.
  unfold accepts, driver_main.
  destruct args as [|p [|o [|x rest]]].
  - intros _. repeat split.
  - intros A. cbn [read_option]. rewrite A. repeat split.
  - destruct (read_option [o]) eqn:R; intros A; try rewrite A;
      repeat split.
  - intros _. repeat split.
Qed.

(** X22: unless the arguments are in order and the input is a regular file,
    the driver fails without running a command, writing or removing a
    file: it only writes to stderr and leaves the world as it was. *)
Theorem driver_rejects (argv0 : string) (args : list string) (w : world) :
  accepts world os_stat args w = false ->
  status (run argv0 args w) = EXIT_FAILURE /\
  final (run argv0 args w) = w /\
  forallb is_stderr (log (run argv0 args w)) = true.
Proof. apply driver_main_rejected. Qed.

(** X23: when the driver reports success, the preprocessor was run and every
    command that was run returned 0. *)
Theorem driver_success (argv0 : string) (args : list string) (w : world) :
  status (run argv0 args w) = EXIT_SUCCESS ->
  exists p rest, args = p :: rest /\
    In (Ran (preprocess_cmd dirname basename p) 0)
       (log (run argv0 args w)) /\
    forall cmd st, In (Ran cmd st) (log (run argv0 args w)) -> st = 0%Z.
Proof.
  destruct (accepts world os_stat args w) eqn:A.
  - destruct (driver_main_accepted argv0 args w A) as (p & rest & -> & _ & ->).
    intros S. exists p, rest. split; [reflexivity|]. revert S.
    driver_cases; intros S; try discriminate S.
    all: split; [simpl; auto 10|].
    all: intros cmd st I; simpl in I.
    all: repeat (destruct I as [I|I]; try discriminate I;
                 try (injection I as _ <-; reflexivity)).
    all: try contradiction.
  - destruct (driver_main_rejected argv0 args w A) as (F & _). rewrite F.
    discriminate.
Qed.

(** Closes a goal about the events of a log written out in full. *)
Ltac log_facts :=
  cbn [In app filter is_ran is_wrote is_removed is_stderr forallb negb
       andb List.length] in *;
  repeat match goal with
         | H : _ \/ _ |- _ => destruct H
         | H : False |- _ => contradiction
         | H : Ran _ _ = Ran _ _ |- _ => injection H as ? ?; subst
         | H : Removed _ _ = Removed _ _ |- _ => injection H as ? ?; subst
         | H : Wrote _ _ = Wrote _ _ |- _ => injection H as ? ?; subst
         | H : @eq event _ _ |- _ => discriminate H
         end.


Lemma read_stage_option (o : string) :
  is_stage_option o = true -> read_option [o] = StageOption o.
Proof. unfold is_stage_option, read_option. intros ->. reflexivity. Qed.

(** X25: with one of the options [--lex], [--parse] and [--codegen] the driver
    writes no file and runs no command but the preprocessor, and it
    reports success exactly when the preprocessor was run and returned
    0. *)
Theorem driver_stage_option (argv0 p o : string) (w : world) :
  is_stage_option o = true ->
  forallb (fun e => negb (is_wrote e)) (log (run argv0 [p; o] w)) = true /\
  (forall cmd st, In (Ran cmd st) (log (run argv0 [p; o] w)) ->
                  cmd = preprocess_cmd dirname basename p) /\
  (status (run argv0 [p; o] w) = EXIT_SUCCESS <->
   In (Ran (preprocess_cmd dirname basename p) 0)
      (log (run argv0 [p; o] w))).
Proof.
  intros O. apply read_stage_option in O.
  destruct (accepts world os_stat [p; o] w) eqn:A.
  - destruct (driver_main_accepted argv0 _ w A) as (p' & rest' & E & _ & ->).
    injection E as <- <-. rewrite O.
    driver_cases; (split; [reflexivity|]);
      (split; [intros cmd st' I; log_facts; reflexivity|]);
      (split; intros I; log_facts; try discriminate; try congruence;
       try reflexivity; auto 10).
  - destruct (driver_main_rejected argv0 _ w A) as (F & _ & L).
    rewrite forallb_forall in L. repeat split.
    + apply forallb_forall. intros e I. apply L in I.
      destruct e; try discriminate I. reflexivity.
    + intros cmd st I. apply L in I. discriminate I.
    + rewrite F. discriminate.
    + intros I. apply L in I. discriminate I.
Qed.

(** X26: with the option [-S] the only command run is the preprocessor,
    once at most: nothing is linked.  The only file [remove] is called on
    is the preprocessed file, once at most; so the assembly file is not
    removed, unless the two names are the same.  The only file opened for
    writing is the assembly file, for the stub text, and success is
    reported exactly when it could be opened: the results of the calls
    that write the text and close the file are not looked at. *)
Theorem driver_assembly_only (argv0 p : string) (w : world) :
  (forall cmd st, In (Ran cmd st) (log (run argv0 [p; "-S"%string] w)) ->
     cmd = preprocess_cmd dirname basename p) /\
  List.length (filter is_ran (log (run argv0 [p; "-S"%string] w))) <= 1 /\
  (forall path ok,
     In (Removed path ok) (log (run argv0 [p; "-S"%string] w)) ->
     path = preprocessed_file dirname basename p) /\
  List.length (filter is_removed (log (run argv0 [p; "-S"%string] w))) <= 1 /\
  (preprocessed_file dirname basename p <> assembly_file dirname basename p ->
   forall ok, ~ In (Removed (assembly_file dirname basename p) ok)
                   (log (run argv0 [p; "-S"%string] w))) /\
  (forall path text,
     In (Wrote path text) (log (run argv0 [p; "-S"%string] w)) ->
     path = assembly_file dirname basename p /\ text = stub_assembly) /\
  (status (run argv0 [p; "-S"%string] w) = EXIT_SUCCESS <->
   In (Wrote (assembly_file dirname basename p) stub_assembly)
      (log (run argv0 [p; "-S"%string] w))).
Proof.
  assert (K : forall l : list event,
    (forall path ok, In (Removed path ok) l ->
                     path = preprocessed_file dirname basename p) ->
    preprocessed_file dirname basename p <> assembly_file dirname basename p ->
    forall ok, ~ In (Removed (assembly_file dirname basename p) ok) l).
  { intros l R N ok I. apply R in I. congruence. }
  destruct (accepts world os_stat [p; "-S"%string] w) eqn:A.
  - destruct (driver_main_accepted argv0 _ w A) as (p' & rest' & E & _ & ->).
    injection E as <- <-.
    change (read_option ["-S"%string]) with AssemblyOnly. cbv iota.
    driver_cases;
      match goal with
      | |- _ /\ _ /\ ?C /\ _ =>
          assert (R : C) by (intros path ok I; log_facts; reflexivity)
      end;
      (split; [intros cmd st' I; log_facts; reflexivity|]);
      (split; [cbn; lia|]);
      (split; [exact R|]);
      (split; [cbn; lia|]);
      (split; [exact (K _ R)|]);
      (split; [intros path text I; log_facts; split; reflexivity|]);
      (split; intros I; log_facts; try discriminate; try reflexivity;
       auto 10).
  - destruct (driver_main_rejected argv0 _ w A) as (F & _ & L).
    assert (N : forall f, (forall e, f e = true -> is_stderr e = false) ->
                filter f (log (run argv0 [p; "-S"%string] w)) = []).
    { intros f Hf. revert L.
      generalize (log (run argv0 [p; "-S"%string] w)).
      induction l as [|e l IH]; simpl; [reflexivity|]. intros L.
      apply andb_true_iff in L as (S & L). rewrite (IH L).
      destruct (f e) eqn:Fe; [|reflexivity].
      apply Hf in Fe. congruence. }
    rewrite !N by (intros [] H; (discriminate H || reflexivity)).
    rewrite forallb_forall in L.
    assert (R : forall path ok,
              In (Removed path ok) (log (run argv0 [p; "-S"%string] w)) ->
              path = preprocessed_file dirname basename p)
      by (intros path ok I; apply L in I; discriminate I).
    split; [intros cmd st I; apply L in I; discriminate I|].
    split; [simpl; lia|]. split; [exact R|]. split; [simpl; lia|].
    split; [exact (K _ R)|].
    split; [intros path text I; apply L in I; discriminate I|].
    split.
    + rewrite F. discriminate.
    + intros I. apply L in I. discriminate I.
Qed.


(** ** The names of the temporary files *)

Lemma substring_whole (s : string) (n : nat) :
  String.length s <= n -> substring 0 n s = s.
Proof.
  revert n. induction s as [|c s IH]; intros [|n] H; simpl in *;
    try reflexivity; try lia.
  rewrite IH by lia. reflexivity.
Qed.

Lemma substring_prefix (a b : string) :
  substring 0 (String.length a) (a ++ b) = a.
Proof.
  induction a as [|c a IH]; simpl.
  - destruct b; reflexivity.
  - rewrite IH. reflexivity.
Qed.

Lemma substring_length (s : string) (n : nat) :
  n <= String.length s -> String.length (substring 0 n s) = n.
Proof.
  revert n. induction s as [|c s IH]; intros [|n] H; simpl in *;
    try reflexivity; try lia.
  rewrite IH by lia. reflexivity.
Qed.

Lemma append_length (a b : string) :
  String.length (a ++ b) = String.length a + String.length b.
Proof. induction a as [|c a IH]; simpl; congruence. Qed.

Lemma append_cancel (a b c : string) : (a ++ b = a ++ c)%string -> b = c.
Proof.
  induction a as [|x a IH]; simpl; intros H; [exact H|].
  injection H as H. apply IH, H.
Qed.

Lemma truncate_short (size : nat) (s : string) :
  String.length s <= size - 1 -> truncate size s = s.
Proof. apply substring_whole. Qed.

Lemma truncate_full (size : nat) (a b : string) :
  String.length a = size - 1 -> truncate size (a ++ b) = a.
Proof. unfold truncate. intros <-. apply substring_prefix. Qed.

(** X28: when the directory, the slash and the name without extension take
    less than [MAX_PATH - 2] characters, the preprocessed file and the
    assembly file are that text followed by [.i] and by [.s], two
    different names. *)
Theorem temporary_file_names (p : string) :
  String.length (stemmed dirname basename p) + 2 < MAX_PATH ->
  preprocessed_file dirname basename p
  = (stemmed dirname basename p ++ ".i")%string /\
  assembly_file dirname basename p
  = (stemmed dirname basename p ++ ".s")%string /\
  preprocessed_file dirname basename p <> assembly_file dirname basename p.
Proof.
  intros H. unfold preprocessed_file, assembly_file.
  change (final_name dirname basename p)
    with (truncate MAX_PATH (stemmed dirname basename p)).
  rewrite (truncate_short MAX_PATH (stemmed dirname basename p)) by lia.
  rewrite !truncate_short
    by (rewrite append_length; cbn [String.length]; lia).
  repeat split. intros E. apply append_cancel in E. discriminate E.
Qed.

(** X29: when they take [MAX_PATH - 1] characters or more, the two names are
    cut to the same text: the preprocessed file and the assembly file are
    one file. *)
Theorem long_names_collide (p : string) :
  MAX_PATH - 1 <= String.length (stemmed dirname basename p) ->
  preprocessed_file dirname basename p = assembly_file dirname basename p.
Proof.
  intros H. unfold preprocessed_file, assembly_file.
  change (final_name dirname basename p)
    with (truncate MAX_PATH (stemmed dirname basename p)).
  assert (L : String.length (truncate MAX_PATH (stemmed dirname basename p))
              = MAX_PATH - 1)
    by (apply substring_length; exact H).
  rewrite !(truncate_full MAX_PATH _ _ L). reflexivity.
Qed.

End DriverFacts.

(** ** The base name without its extension *)

Lemma list_ascii_of_string_app (a b : string) :
  list_ascii_of_string (a ++ b) = list_ascii_of_string a ++ list_ascii_of_string b.
Proof. induction a as [|c a IH]; simpl; congruence. Qed.

Lemma last_index_absent (c : ascii) (l : list ascii) :
  forallb (fun x => negb (Ascii.eqb x c)) l = true -> last_index c l = None.
Proof.
  induction l as [|x l IH]; simpl; [reflexivity|].
  intros H. apply andb_true_iff in H as (X & H). rewrite (IH H).
  apply negb_true_iff in X. rewrite X. reflexivity.
Qed.

Lemma last_index_last (c : ascii) (l e : list ascii) :
  forallb (fun x => negb (Ascii.eqb x c)) e = true ->
  last_index c (l ++ c :: e) = Some (List.length l).
Proof.
  intros H. induction l as [|x l IH]; simpl.
  - rewrite (last_index_absent _ _ H), Ascii.eqb_refl. reflexivity.
  - rewrite IH. reflexivity.
Qed.

(** X30: the name the driver keeps of a base name is the base name without
    its last extension: of [s.e], where [e] holds no dot, it keeps [s],
    which is empty when the only dot comes first; a base name without dot
    it keeps whole. *)
Theorem stem_strips_last_extension (s e : string) :
  dot_free e = true ->
  substring 0 (name_len (s ++ "." ++ e)) (s ++ "." ++ e) = s /\
  substring 0 (name_len e) e = e.
Proof.
  intros D. unfold dot_free in D. split.
  - unfold name_len. rewrite list_ascii_of_string_app. simpl.
    rewrite (last_index_last "." _ _ D).
    rewrite <- string_length_of_list, string_of_list_ascii_of_string.
    apply substring_prefix.
  - unfold name_len. rewrite (last_index_absent "." _ D).
    apply substring_whole. lia.
Qed.

Lemma stem_strips_last_extension_witness :
  substring 0 (name_len ("a.tar" ++ "." ++ "gz")) ("a.tar" ++ "." ++ "gz")
  = "a.tar"%string /\
  substring 0 (name_len "gz") "gz" = "gz"%string.
Proof. apply (stem_strips_last_extension "a.tar" "gz"). reflexivity. Defined.

(** ** The driver on the small operating system *)

Lemma driver_rejects_witness :
  status (toy_main "cc" ["a.c"; "-x"]%string ["a.c"%string]) = EXIT_FAILURE /\
  final (toy_main "cc" ["a.c"; "-x"]%string ["a.c"%string]) = ["a.c"%string] /\
  forallb is_stderr (log (toy_main "cc" ["a.c"; "-x"]%string ["a.c"%string]))
  = true.
Proof.
  apply (driver_rejects toy_world toy_stat toy_system toy_write toy_remove
           toy_dirname toy_basename).
  reflexivity.
Defined.

Lemma driver_success_witness :
  exists p rest, ["a.c"; "--lex"]%string = p :: rest /\
    In (Ran (preprocess_cmd toy_dirname toy_basename p) 0)
       (log (toy_main "cc" ["a.c"; "--lex"]%string ["a.c"%string])) /\
    forall cmd st,
      In (Ran cmd st)
         (log (toy_main "cc" ["a.c"; "--lex"]%string ["a.c"%string])) ->
      st = 0%Z.
Proof.
  apply (driver_success toy_world toy_stat toy_system toy_write toy_remove
           toy_dirname toy_basename).
  vm_compute. reflexivity.
Defined.


Lemma driver_stage_option_witness :
  forallb (fun e => negb (is_wrote e))
    (log (toy_main "cc" ["a.c"; "--parse"]%string ["a.c"%string])) = true /\
  (forall cmd st,
     In (Ran cmd st)
        (log (toy_main "cc" ["a.c"; "--parse"]%string ["a.c"%string])) ->
     cmd = preprocess_cmd toy_dirname toy_basename "a.c") /\
  (status (toy_main "cc" ["a.c"; "--parse"]%string ["a.c"%string])
   = EXIT_SUCCESS <->
   In (Ran (preprocess_cmd toy_dirname toy_basename "a.c") 0)
      (log (toy_main "cc" ["a.c"; "--parse"]%string ["a.c"%string]))).
Proof.
  apply (driver_stage_option toy_world toy_stat toy_system toy_write
           toy_remove toy_dirname toy_basename).
  reflexivity.
Defined.

Lemma temporary_file_names_witness :
  preprocessed_file toy_dirname toy_basename "a.b.c"%string = "./a.b.i"%string /\
  assembly_file toy_dirname toy_basename "a.b.c"%string = "./a.b.s"%string /\
  preprocessed_file toy_dirname toy_basename "a.b.c"%string
  <> assembly_file toy_dirname toy_basename "a.b.c"%string.
Proof.
  apply (temporary_file_names toy_dirname toy_basename "a.b.c"%string).
  apply Nat.ltb_lt. vm_compute. reflexivity.
Defined.

Lemma long_names_collide_witness :
  preprocessed_file toy_dirname toy_basename long_path
  = assembly_file toy_dirname toy_basename long_path.
Proof.
  apply (long_names_collide toy_dirname toy_basename long_path).
  apply Nat.leb_le. vm_compute. reflexivity.
Defined.

Lemma driver_assembly_only_witness :
  List.length
    (filter is_removed
       (log (toy_main "cc" ["a.c"; "-S"]%string ["a.c"%string]))) <= 1 /\
  forall ok,
    ~ In (Removed (assembly_file toy_dirname toy_basename "a.c") ok)
         (log (toy_main "cc" ["a.c"; "-S"]%string ["a.c"%string])).
Proof.
  destruct (driver_assembly_only toy_world toy_stat toy_system toy_write
              toy_remove toy_dirname toy_basename "cc" "a.c" ["a.c"%string])
    as (_ & _ & _ & R & N & _).
  split; [exact R | apply N; vm_compute; discriminate].
Defined.

